(** * freedompress-shop: pricing utilities and cart store

    A shallow embedding of
    - [src/utils/index.ts]: [calculateTax], [calculateShipping],
      [calculateOrderTotals];
    - the cart store: [getCSRFToken], [cartApi], [useCartStore];
    - [src/middleware/security]: [generateCSRFToken];
    and, further down, of [calculateDiscountedPrice], [getInventoryStatus],
    [filterProductsByPrice], [generateProductVariants], [generateBarcode],
    [validateCreditCard] and [validateProductData] of the utilities, the
    selectors of the cart store, and [sanitizeInput] (on strings),
    [withCSRFProtection] and [validateIP] of the security middleware.

    JavaScript numbers are modelled as exact rationals ([Q]); equality of
    amounts is [Qeq] ([==]).  The arithmetic of IEEE doubles is not
    modelled: every statement below is about the exact value of the
    expression the code writes. *)

From Stdlib Require Import ZArith QArith Qround Qminmax List String Bool Lia Lqa.
Import ListNotations.

Local Open Scope Q_scope.

(** ** currency.js

    [currency.js] (dependency [^2.0.4], default settings: precision 2) is
    not part of the repository.  Its constructor, for a number [v], is
    [intValue = Math.round((v * 100).toFixed(4))], [value = intValue / 100],
    and [multiply(n)] is [currency(intValue * n / 100)]. *)
Module Currency.

(** [Number.prototype.toFixed(4)]: the nearest multiple of 1/10000, the
    larger magnitude on a tie (the sign is split off first). *)
Definition toFixed4 (x : Q) : Q :=
  if Qle_bool 0 x
  then inject_Z (Qfloor (x * 10000 + (1 # 2))) / 10000
  else - (inject_Z (Qfloor ((- x) * 10000 + (1 # 2))) / 10000).

(** [Math.round]: the nearest integer, the larger one on a tie. *)
Definition Math_round (x : Q) : Z := Qfloor (x + (1 # 2)).

(** [parse(value, settings)] for a number, precision 2. *)
Definition intValue (v : Q) : Z := Math_round (toFixed4 (v * 100)).

(** [currency(v).value] *)
Definition value (v : Q) : Q := inject_Z (intValue v) / 100.

(** [currency(v).multiply(n).value] *)
Definition multiply_value (v n : Q) : Q :=
  value (inject_Z (intValue v) * n / 100).

End Currency.

(** ** src/utils/index.ts *)

Definition Qlt_bool (x y : Q) : bool := negb (Qle_bool y x).

(** [calculateTax(subtotal, taxRate)] *)
Definition calculateTax (subtotal taxRate : Q) : Q :=
  Currency.multiply_value subtotal taxRate.

(** The default parameter [freeShippingThreshold: number = 0]: an absent
    argument ([None]) takes the value 0. *)
Definition threshold_or_default (freeShippingThreshold : option Q) : Q :=
  match freeShippingThreshold with Some t => t | None => 0 end.

(** [calculateShipping(subtotal, shippingRate, freeShippingThreshold = 0)] *)
Definition calculateShipping (subtotal shippingRate : Q)
    (freeShippingThreshold : option Q) : Q :=
  let freeShippingThreshold := threshold_or_default freeShippingThreshold in
  if Qlt_bool 0 freeShippingThreshold && Qle_bool freeShippingThreshold subtotal
  then 0
  else shippingRate.

Record LineItem := { price : Q; quantity : Q }.

Record OrderTotals := {
  subtotal : Q;
  tax : Q;
  shipping : Q;
  discount : Q;
  total : Q
}.

(** [items.reduce((sum, item) => sum + (item.price * item.quantity), 0)] *)
Definition items_subtotal (items : list LineItem) : Q :=
  fold_left (fun sum item => sum + price item * quantity item) items 0.

(** [calculateOrderTotals(items, taxRate, shippingRate, discountAmount)];
    the last three parameters default to 0 in the source and are always
    passed here.  [calculateShipping] is called with two arguments. *)
Definition calculateOrderTotals (items : list LineItem)
    (taxRate shippingRate discountAmount : Q) : OrderTotals :=
  let subtotal := items_subtotal items in
  let tax := calculateTax subtotal taxRate in
  let shipping := calculateShipping subtotal shippingRate None in
  let discount := Qmin discountAmount subtotal in
  let total := subtotal + tax + shipping - discount in
  {| subtotal := Currency.value subtotal;
     tax := Currency.value tax;
     shipping := Currency.value shipping;
     discount := Currency.value discount;
     total := Currency.value total |}.

(** A line item as the data model admits it: a non-negative price and a
    positive whole quantity. *)
Definition valid_item (item : LineItem) : Prop :=
  0 <= price item /\
  exists n : Z, (0 < n)%Z /\ quantity item == inject_Z n.

(** An amount that is a whole number of cents. *)
Definition whole_cents (x : Q) : Prop := exists n : Z, x == inject_Z n / 100.


(** The scenario of the specification: three units at 10.00, 8% tax, 5.99
    shipping, no discount. *)
Definition scenario : OrderTotals :=
  calculateOrderTotals [{| price := 10; quantity := 3 |}]
    (8 # 100) (599 # 100) 0.

(** ** The cart store and src/middleware/security

    The store's actions are asynchronous functions that read the
    environment, call [fetch] and write the store.  They are modelled in a
    state-and-exception monad over a [World]: the store, the environment
    variable [CSRF_SECRET], the salt source of the [csrf] library, the log of
    the requests sent so far and the remote server, a function from the
    requests seen so far and the current request to the outcome of [fetch].
    One action runs from its first [set] to its settlement without another
    action interleaved. *)
Module Store.

Local Open Scope string_scope.

Record CartItem := {
  item_id : string;
  item_quantity : Q;
  item_price : Q;
  item_productId : string;
  item_variantId : option string
}.

Record Cart := {
  id : string;
  subtotal : Q;
  tax : Q;
  shipping : Q;
  total : Q;
  discountCode : option string;
  discountAmount : Q;
  items : list CartItem
}.

Record CartItemInput := {
  productId : string;
  variantId : option string;
  quantity : Q
}.

(** The data fields of [CartStore]. *)
Record CartState := {
  cart : option Cart;
  isLoading : bool;
  error : option string
}.

(** A thrown value: an [Error] with its message, or anything else. *)
Inductive Thrown :=
| ErrorObj (message : string)
| NonError.

(** A token of the [csrf] library: [create(secret)] draws a new salt and
    signs it with the secret. *)
Record Token := { token_salt : nat; token_secret : string }.

Inductive Method := GET | POST | PUT | DELETE.

(** The argument of [JSON.stringify] in a request body. *)
Inductive Body :=
| ItemBody (item : CartItemInput)
| QuantityBody (quantity : Q)
| CodeBody (code : string).

Record Request := {
  url : string;
  method : Method;
  contentTypeJson : bool;
  csrfHeader : option Token;
  body : option Body
}.

(** What [response.json()] settles to. *)
Inductive JsonResult :=
| JsonCart (c : Cart)
| JsonThrows (t : Thrown).

Record Response := { ok : bool; json : JsonResult }.

(** What [fetch] settles to. *)
Inductive FetchOutcome :=
| FetchRejects (t : Thrown)
| FetchResolves (r : Response).

Record World := {
  store : CartState;
  CSRF_SECRET : option string;
  salts : nat;
  requests : list Request;
  server : list Request -> Request -> FetchOutcome
}.

Inductive Settled (A : Type) :=
| Fulfilled (a : A)
| Rejected (t : Thrown).
Arguments Fulfilled {A} a.
Arguments Rejected {A} t.

Definition Async (A : Type) : Type := World -> Settled A * World.

Definition ret {A} (a : A) : Async A := fun w => (Fulfilled a, w).

Definition throw {A} (t : Thrown) : Async A := fun w => (Rejected t, w).

Definition bind {A B} (m : Async A) (k : A -> Async B) : Async B :=
  fun w =>
    match m w with
    | (Fulfilled a, w') => k a w'
    | (Rejected t, w') => (Rejected t, w')
    end.

Definition try_catch {A} (block : Async A) (handler : Thrown -> Async A)
    : Async A :=
  fun w =>
    match block w with
    | (Fulfilled a, w') => (Fulfilled a, w')
    | (Rejected t, w') => handler t w'
    end.

Notation "x <- m ;; k" := (bind m (fun x => k))
  (at level 61, m at next level, right associativity).
Notation "m ;;; k" := (bind m (fun _ => k))
  (at level 61, right associativity).

(** The world an action leaves behind. *)
Definition exec {A} (m : Async A) (w : World) : World := snd (m w).

(** Field updates of the world. *)
Definition with_store (s : CartState) (w : World) : World :=
  {| store := s; CSRF_SECRET := CSRF_SECRET w; salts := salts w;
     requests := requests w; server := server w |}.

Definition with_salts (n : nat) (w : World) : World :=
  {| store := store w; CSRF_SECRET := CSRF_SECRET w; salts := n;
     requests := requests w; server := server w |}.

Definition with_requests (rs : list Request) (w : World) : World :=
  {| store := store w; CSRF_SECRET := CSRF_SECRET w; salts := salts w;
     requests := rs; server := server w |}.

(** Zustand's [set] with an immer recipe. *)
Definition set (recipe : CartState -> CartState) : Async unit :=
  fun w => (Fulfilled tt, with_store (recipe (store w)) w).

(** [fetch(url, init)]: the request is sent and logged, the server decides. *)
Definition fetch (r : Request) : Async Response :=
  fun w =>
    let w' := with_requests (requests w ++ [r]) w in
    match server w (requests w) r with
    | FetchRejects t => (Rejected t, w')
    | FetchResolves resp => (Fulfilled resp, w')
    end.

Definition response_json (r : Response) : Async Cart :=
  match json r with
  | JsonCart c => ret c
  | JsonThrows t => throw t
  end.

(** JavaScript truthiness of [secret || process.env.CSRF_SECRET]: undefined
    and the empty string are falsy. *)
Definition truthy_secret (s : option string) : option string :=
  match s with
  | Some EmptyString => None
  | Some s => Some s
  | None => None
  end.

(** [generateCSRFToken()] of src/middleware/security, called without a
    secret: [csrfTokens.create(csrfSecret)] draws the next salt. *)
Definition generateCSRFToken : Async Token :=
  fun w =>
    match truthy_secret (CSRF_SECRET w) with
    | None =>
        (Rejected (ErrorObj "CSRF_SECRET environment variable is required"), w)
    | Some csrfSecret =>
        (Fulfilled {| token_salt := salts w; token_secret := csrfSecret |},
         with_salts (S (salts w)) w)
    end.

Definition getCSRFToken : Async Token :=
  try_catch generateCSRFToken
    (fun _ => throw (ErrorObj "Security configuration error")).

Module cartApi.

Definition getCart : Async Cart :=
  response <- fetch {| url := "/api/shop/cart"; method := GET;
                       contentTypeJson := false; csrfHeader := None;
                       body := None |} ;;
  if negb (ok response) then throw (ErrorObj "Failed to fetch cart")
  else response_json response.

Definition addItem (item : CartItemInput) : Async Cart :=
  csrfToken <- getCSRFToken ;;
  response <- fetch {| url := "/api/shop/cart/items"; method := POST;
                       contentTypeJson := true; csrfHeader := Some csrfToken;
                       body := Some (ItemBody item) |} ;;
  if negb (ok response) then throw (ErrorObj "Failed to add item to cart")
  else response_json response.

Definition updateQuantity (itemId : string) (quantity : Q) : Async Cart :=
  csrfToken <- getCSRFToken ;;
  response <- fetch {| url := "/api/shop/cart/items/" ++ itemId;
                       method := PUT;
                       contentTypeJson := true; csrfHeader := Some csrfToken;
                       body := Some (QuantityBody quantity) |} ;;
  if negb (ok response) then throw (ErrorObj "Failed to update item quantity")
  else response_json response.

Definition removeItem (itemId : string) : Async Cart :=
  csrfToken <- getCSRFToken ;;
  response <- fetch {| url := "/api/shop/cart/items/" ++ itemId;
                       method := DELETE;
                       contentTypeJson := false; csrfHeader := Some csrfToken;
                       body := None |} ;;
  if negb (ok response) then throw (ErrorObj "Failed to remove item from cart")
  else response_json response.

Definition clearCart : Async unit :=
  csrfToken <- getCSRFToken ;;
  response <- fetch {| url := "/api/shop/cart"; method := DELETE;
                       contentTypeJson := false; csrfHeader := Some csrfToken;
                       body := None |} ;;
  if negb (ok response) then throw (ErrorObj "Failed to clear cart")
  else ret tt.

Definition applyDiscount (code : string) : Async Cart :=
  csrfToken <- getCSRFToken ;;
  response <- fetch {| url := "/api/shop/cart/discount"; method := POST;
                       contentTypeJson := true; csrfHeader := Some csrfToken;
                       body := Some (CodeBody code) |} ;;
  if negb (ok response) then throw (ErrorObj "Failed to apply discount")
  else response_json response.

Definition removeDiscount : Async Cart :=
  csrfToken <- getCSRFToken ;;
  response <- fetch {| url := "/api/shop/cart/discount"; method := DELETE;
                       contentTypeJson := false; csrfHeader := Some csrfToken;
                       body := None |} ;;
  if negb (ok response) then throw (ErrorObj "Failed to remove discount")
  else response_json response.

End cartApi.

(** The three recipes the actions pass to [set]. *)
Definition start_loading (state : CartState) : CartState :=
  {| cart := cart state; isLoading := true; error := None |}.

Definition settle_cart (c : option Cart) (state : CartState) : CartState :=
  {| cart := c; isLoading := false; error := error state |}.

(** [error instanceof Error ? error.message : fallback] *)
Definition message_or (t : Thrown) (fallback : string) : string :=
  match t with
  | ErrorObj message => message
  | NonError => fallback
  end.

Definition settle_error (t : Thrown) (fallback : string) (state : CartState)
    : CartState :=
  {| cart := cart state; isLoading := false;
     error := Some (message_or t fallback) |}.

(** The initial state of [useCartStore]. *)
Definition initial : CartState :=
  {| cart := None; isLoading := false; error := None |}.

Definition fetchCart : Async unit :=
  set start_loading ;;;
  try_catch
    (cart <- cartApi.getCart ;; set (settle_cart (Some cart)))
    (fun error => set (settle_error error "Failed to fetch cart")).

Definition addItem (item : CartItemInput) : Async unit :=
  set start_loading ;;;
  try_catch
    (cart <- cartApi.addItem item ;; set (settle_cart (Some cart)))
    (fun error => set (settle_error error "Failed to add item to cart")).

Definition removeItem (itemId : string) : Async unit :=
  set start_loading ;;;
  try_catch
    (cart <- cartApi.removeItem itemId ;; set (settle_cart (Some cart)))
    (fun error => set (settle_error error "Failed to remove item from cart")).

Definition updateQuantity (itemId : string) (quantity : Q) : Async unit :=
  set start_loading ;;;
  try_catch
    (if Qle_bool quantity 0
     then removeItem itemId
     else cart <- cartApi.updateQuantity itemId quantity ;;
          set (settle_cart (Some cart)))
    (fun error => set (settle_error error "Failed to update item quantity")).

Definition clearCart : Async unit :=
  set start_loading ;;;
  try_catch
    (cartApi.clearCart ;;; set (settle_cart None))
    (fun error => set (settle_error error "Failed to clear cart")).

Definition applyDiscount (code : string) : Async unit :=
  set start_loading ;;;
  try_catch
    (cart <- cartApi.applyDiscount code ;; set (settle_cart (Some cart)))
    (fun error => set (settle_error error "Failed to apply discount")).

Definition removeDiscount : Async unit :=
  set start_loading ;;;
  try_catch
    (cart <- cartApi.removeDiscount ;; set (settle_cart (Some cart)))
    (fun error => set (settle_error error "Failed to remove discount")).

(** The operations of the controller, and the action each one names. *)
Inductive Op :=
| FetchCart
| AddItem (item : CartItemInput)
| UpdateQuantity (itemId : string) (quantity : Q)
| RemoveItem (itemId : string)
| ClearCart
| ApplyDiscount (code : string)
| RemoveDiscount.

Definition action (op : Op) : Async unit :=
  match op with
  | FetchCart => fetchCart
  | AddItem item => addItem item
  | UpdateQuantity itemId quantity => updateQuantity itemId quantity
  | RemoveItem itemId => removeItem itemId
  | ClearCart => clearCart
  | ApplyDiscount code => applyDiscount code
  | RemoveDiscount => removeDiscount
  end.

Definition discard {A} (m : Async A) : Async unit := m ;;; ret tt.

(** The [cartApi] call an operation awaits; [updateQuantity] with a
    quantity [<= 0] reaches [cartApi.removeItem] through [removeItem]. *)
Definition remote_call (op : Op) : Async unit :=
  match op with
  | FetchCart => discard cartApi.getCart
  | AddItem item => discard (cartApi.addItem item)
  | UpdateQuantity itemId quantity =>
      if Qle_bool quantity 0 then discard (cartApi.removeItem itemId)
      else discard (cartApi.updateQuantity itemId quantity)
  | RemoveItem itemId => discard (cartApi.removeItem itemId)
  | ClearCart => cartApi.clearCart
  | ApplyDiscount code => discard (cartApi.applyDiscount code)
  | RemoveDiscount => discard cartApi.removeDiscount
  end.

(** The message [cartApi] throws when the response of an operation is not
    [ok]; it is also the fallback of the action's [catch]. *)
Definition failure_message (op : Op) : string :=
  match op with
  | FetchCart => "Failed to fetch cart"
  | AddItem _ => "Failed to add item to cart"
  | UpdateQuantity _ quantity =>
      if Qle_bool quantity 0 then "Failed to remove item from cart"
      else "Failed to update item quantity"
  | RemoveItem _ => "Failed to remove item from cart"
  | ClearCart => "Failed to clear cart"
  | ApplyDiscount _ => "Failed to apply discount"
  | RemoveDiscount => "Failed to remove discount"
  end.

Definition mutating (op : Op) : bool :=
  match op with
  | FetchCart => false
  | _ => true
  end.

(** An action leaves the model of the remote calls alone when the store it
    starts from does not matter to them. *)
Definition store_blind {A} (m : Async A) : Prop :=
  forall w s, m (with_store s w) = (fst (m w), with_store s (snd (m w))).

(** A deployment with a configured secret whose server accepts every
    request and answers with [cart1]; and an item of quantity 0. *)
Definition cart1 : Cart :=
  {| id := "c1"; subtotal := 0; tax := 0; shipping := 0; total := 0;
     discountCode := None; discountAmount := 0;
     items := [{| item_id := "i1"; item_quantity := 0; item_price := 10;
                  item_productId := "p1"; item_variantId := None |}] |}.

Definition accepting : World :=
  {| store := initial; CSRF_SECRET := Some "s3cret"; salts := 0;
     requests := [];
     server := fun _ _ => FetchResolves {| ok := true; json := JsonCart cart1 |} |}.

(** The same deployment with a server that refuses every request, and one
    without a secret. *)
Definition refusing : World :=
  {| store := {| cart := Some cart1; isLoading := false; error := None |};
     CSRF_SECRET := Some "s3cret"; salts := 0; requests := [];
     server := fun _ _ => FetchResolves {| ok := false; json := JsonCart cart1 |} |}.

Definition misconfigured : World :=
  {| store := {| cart := Some cart1; isLoading := false; error := None |};
     CSRF_SECRET := None; salts := 0; requests := [];
     server := fun _ _ => FetchResolves {| ok := true; json := JsonCart cart1 |} |}.

Definition item0 : CartItemInput :=
  {| productId := "p1"; variantId := None; quantity := 0 |}.

End Store.

(** ** Further functions of src/utils/index.ts *)

(** [calculateDiscountedPrice(price, discountPercent)] *)
Definition calculateDiscountedPrice (price discountPercent : Q) : Q :=
  Currency.multiply_value price (1 - discountPercent / 100).

Module Inventory.

Record Product := {
  trackQuantity : bool;
  quantity : Q;
  lowStockLevel : Q
}.

Inductive Status := in_stock | low_stock | out_of_stock.

(** [getInventoryStatus(product)] *)
Definition getInventoryStatus (product : Product) : Status :=
  if negb (trackQuantity product) then in_stock
  else if Qle_bool (quantity product) 0 then out_of_stock
  else if Qle_bool (quantity product) (lowStockLevel product) then low_stock
  else in_stock.

(** How good a status is for a buyer. *)
Definition rank (s : Status) : nat :=
  match s with
  | out_of_stock => 0
  | low_stock => 1
  | in_stock => 2
  end.

End Inventory.

(** [filterProductsByPrice(products, minPrice?, maxPrice?)], for any product
    type with a [price]. *)
Definition price_in_range (minPrice maxPrice : option Q) (p : Q) : bool :=
  if match minPrice with
     | Some minPrice => Qlt_bool p minPrice
     | None => false
     end
  then false
  else if match maxPrice with
          | Some maxPrice => Qlt_bool maxPrice p
          | None => false
          end
  then false
  else true.

Definition filterProductsByPrice {T : Type} (price : T -> Q)
    (products : list T) (minPrice maxPrice : option Q) : list T :=
  filter (fun product => price_in_range minPrice maxPrice (price product))
         products.

Module Variants.

Record Variant := {
  option1Name : option string;
  option1Value : option string;
  option2Name : option string;
  option2Value : option string;
  option3Name : option string;
  option3Value : option string
}.

(** The object [{}] the recursion starts from. *)
Definition no_options : Variant :=
  {| option1Name := None; option1Value := None;
     option2Name := None; option2Value := None;
     option3Name := None; option3Value := None |}.

(** The copy [{ ...current }] with the option of position [index] filled
    in; positions from 3 on are not recorded. *)
Definition assign (index : nat) (optionName value : string)
    (current : Variant) : Variant :=
  match index with
  | 0%nat =>
      {| option1Name := Some optionName; option1Value := Some value;
         option2Name := option2Name current;
         option2Value := option2Value current;
         option3Name := option3Name current;
         option3Value := option3Value current |}
  | 1%nat =>
      {| option1Name := option1Name current;
         option1Value := option1Value current;
         option2Name := Some optionName; option2Value := Some value;
         option3Name := option3Name current;
         option3Value := option3Value current |}
  | 2%nat =>
      {| option1Name := option1Name current;
         option1Value := option1Value current;
         option2Name := option2Name current;
         option2Value := option2Value current;
         option3Name := Some optionName; option3Value := Some value |}
  | _ => current
  end.

(** [generateCombinations(index, current)]: [options] is what is left of
    [Object.keys(options)] and [Object.values(options)] from [index] on, and
    the result is what the call pushes on [variants], in order. *)
Fixpoint generateCombinations (index : nat)
    (options : list (string * list string)) (current : Variant)
    : list Variant :=
  match options with
  | [] => [current]
  | (optionName, values) :: rest =>
      flat_map
        (fun value =>
           generateCombinations (S index) rest
             (assign index optionName value current))
        values
  end.

(** [generateProductVariants(options)]: the options in key order. *)
Definition generateProductVariants (options : list (string * list string))
    : list Variant :=
  match options with
  | [] => []
  | _ => generateCombinations 0 options no_options
  end.

End Variants.

From Stdlib Require Ascii DecimalString.

(** Decimal digits in a string: the class [\d] of a regular expression
    without the unicode flag, and [parseInt] of one digit.  A JavaScript
    string is taken as a Rocq string here; the functions below look at
    ASCII digits only. *)
Module Digits.
Import Ascii.

Definition code (c : ascii) : Z := Z.of_N (N_of_ascii c).

Definition is_digit (c : ascii) : bool :=
  (48 <=? code c)%Z && (code c <=? 57)%Z.

(** [parseInt(c)] for a digit [c]. *)
Definition digit_value (c : ascii) : Z := (code c - 48)%Z.

(** [String(n)] for an integer [n]. *)
Definition Number_toString (n : Z) : string :=
  DecimalString.NilZero.string_of_int (Z.to_int n).

End Digits.

Module CreditCard.
Import Ascii Digits.

(** What the body of the loop adds to [sum]. *)
Definition contribution (shouldDouble : bool) (c : ascii) : Z :=
  let digit := digit_value c in
  if shouldDouble
  then let digit := (digit * 2)%Z in
       if (9 <? digit)%Z then (digit - 9)%Z else digit
  else digit.

(** The loop [for (let i = digits.length - 1; i >= 0; i--)], on the digits
    from the last one to the first. *)
Fixpoint luhn (digits : list ascii) (shouldDouble : bool) (sum : Z) : Z :=
  match digits with
  | [] => sum
  | c :: rest =>
      luhn rest (negb shouldDouble) (sum + contribution shouldDouble c)%Z
  end.

(** [cardNumber.replace(/\D/g, '')] *)
Definition strip (cardNumber : string) : list ascii :=
  filter is_digit (list_ascii_of_string cardNumber).

(** [validateCreditCard(cardNumber)] *)
Definition validateCreditCard (cardNumber : string) : bool :=
  let digits := strip cardNumber in
  if (List.length digits <? 13)%nat || (19 <? List.length digits)%nat
  then false
  else (Z.rem (luhn (rev digits) false 0) 10 =? 0)%Z.

End CreditCard.

Module Barcode.
Import Ascii Digits.

(** [parseInt(barcode[i])]: [None] is NaN, also for an index past the
    end. *)
Definition parseInt (c : option ascii) : option Z :=
  match c with
  | Some c => if is_digit c then Some (digit_value c) else None
  | None => None
  end.

(** The first loop: twelve times [barcode += Math.floor(Math.random() * 10)];
    [random i] is what the call number [i] of [Math.random] returns. *)
Definition random_digits (random : nat -> Q) : string :=
  fold_left
    (fun barcode i =>
       (barcode ++ Number_toString (Qfloor (random i * 10)))%string)
    (seq 0 12) EmptyString.

(** The second loop: the weighted sum of the twelve digits. *)
Definition weighted_sum (barcode : string) : option Z :=
  fold_left
    (fun sum i =>
       match sum, parseInt (String.get i barcode) with
       | Some sum, Some digit =>
           Some (sum + (if Nat.eqb (i mod 2) 0 then digit else digit * 3))%Z
       | _, _ => None
       end)
    (seq 0 12) (Some 0%Z).

(** [generateBarcode()] *)
Definition generateBarcode (random : nat -> Q) : string :=
  let barcode := random_digits random in
  let checkDigit :=
    match weighted_sum barcode with
    | Some sum => Number_toString (Z.rem (10 - Z.rem sum 10) 10)
    | None => "NaN"%string
    end in
  (barcode ++ checkDigit)%string.

(** EAN-13, as the standard defines it: thirteen digits whose sum, with
    weight 1 on the odd places and 3 on the even ones counted from the
    left, is a multiple of 10. *)
Fixpoint ean13_sum (odd_place : bool) (digits : list ascii) : Z :=
  match digits with
  | [] => 0
  | c :: rest =>
      ((if odd_place then digit_value c else 3 * digit_value c)
       + ean13_sum (negb odd_place) rest)%Z
  end.

Definition ean13_valid (barcode : string) : bool :=
  let digits := list_ascii_of_string barcode in
  Nat.eqb (List.length digits) 13 && forallb is_digit digits
  && (ean13_sum true digits mod 10 =? 0)%Z.

End Barcode.

(** ** Selectors of the cart store *)
Module Selectors.
Import Store.

(** [x || 0] for a number that may be undefined. *)
Definition or_zero (x : option Q) : Q :=
  match x with
  | Some q => if Qeq_bool q 0 then 0 else q
  | None => 0
  end.

Definition useCart (state : CartState) : option Cart := cart state.

(** [state.cart?.items || []] *)
Definition useCartItems (state : CartState) : list CartItem :=
  match cart state with
  | Some c => items c
  | None => []
  end.

(** [state.cart?.total || 0] *)
Definition useCartTotal (state : CartState) : Q :=
  or_zero (option_map total (cart state)).

(** [state.cart?.items.reduce((total, item) => total + item.quantity, 0) || 0] *)
Definition useCartItemCount (state : CartState) : Q :=
  or_zero
    (option_map
       (fun c => fold_left (fun total item => total + item_quantity item)
                           (items c) 0)
       (cart state)).

Definition useCartLoading (state : CartState) : bool := isLoading state.

Definition useCartError (state : CartState) : option string := error state.

(** What the [cartApi] call of an operation resolves to: the snapshot the
    action stores, none for [clearCart]. *)
Definition remote_snapshot (op : Op) : Async (option Cart) :=
  match op with
  | FetchCart => c <- cartApi.getCart ;; ret (Some c)
  | AddItem item => c <- cartApi.addItem item ;; ret (Some c)
  | UpdateQuantity itemId quantity =>
      if Qle_bool quantity 0
      then c <- cartApi.removeItem itemId ;; ret (Some c)
      else c <- cartApi.updateQuantity itemId quantity ;; ret (Some c)
  | RemoveItem itemId => c <- cartApi.removeItem itemId ;; ret (Some c)
  | ClearCart => cartApi.clearCart ;;; ret None
  | ApplyDiscount code => c <- cartApi.applyDiscount code ;; ret (Some c)
  | RemoveDiscount => c <- cartApi.removeDiscount ;; ret (Some c)
  end.

End Selectors.

Module StoreExamples.
Import Store.
Local Open Scope string_scope.

(** A deployment whose server answers every request with an ok response
    that has no parsable body. *)
Definition unparsable : World :=
  {| store := {| cart := Some cart1; isLoading := false; error := None |};
     CSRF_SECRET := Some "s3cret"; salts := 0; requests := [];
     server := fun _ _ =>
       FetchResolves
         {| ok := true;
            json := JsonThrows (ErrorObj "Unexpected end of JSON input") |} |}.

End StoreExamples.

(** ** JavaScript strings

    Where the length of a string or its white space matters, a string is
    the list of its UTF-16 code units. *)
Module JsString.

Definition jsstring : Type := list N.

(** The code units of an ASCII literal. *)
Definition of_string (s : string) : jsstring :=
  map Ascii.N_of_ascii (list_ascii_of_string s).

(** WhiteSpace and LineTerminator of ECMAScript, what [trim] removes. *)
Definition is_whitespace (u : N) : bool :=
  existsb (N.eqb u)
    [9; 10; 11; 12; 13; 32; 160; 5760; 8192; 8193; 8194; 8195; 8196; 8197;
     8198; 8199; 8200; 8201; 8202; 8232; 8233; 8239; 8287; 12288; 65279]%N.

Fixpoint trimStart (s : jsstring) : jsstring :=
  match s with
  | [] => []
  | u :: rest => if is_whitespace u then trimStart rest else s
  end.

Definition trimEnd (s : jsstring) : jsstring := rev (trimStart (rev s)).

(** [s.trim()] *)
Definition trim (s : jsstring) : jsstring := trimEnd (trimStart s).

End JsString.

(** ** validateProductData of src/utils/index.ts *)
Module ProductValidation.
Import JsString.

(** [data.price]: the two checks of the source tell undefined, null and a
    number apart. *)
Inductive PriceField :=
| PriceUndefined
| PriceNull
| PriceNumber (p : Q).

(** The fields of [ProductCreateInput | ProductUpdateInput] the function
    reads; an absent field is [None]. *)
Record ProductData := {
  name : option jsstring;
  description : option jsstring;
  price : PriceField;
  comparePrice : option Q;
  costPrice : option Q;
  quantity : option Q;
  weight : option Q;
  length : option Q;
  width : option Q;
  height : option Q;
  sku : option jsstring
}.

Record Validation := { valid : bool; errors : list string }.

(** [!s || s.trim().length === 0] *)
Definition missing (s : option jsstring) : bool :=
  match s with
  | None => true
  | Some [] => true
  | Some s => Nat.eqb (List.length (trim s)) 0
  end.

(** [s && s.length > n] *)
Definition longer_than (n : nat) (s : option jsstring) : bool :=
  match s with
  | None => false
  | Some [] => false
  | Some s => Nat.ltb n (List.length s)
  end.

(** [x !== undefined && x < 0] *)
Definition negative (x : option Q) : bool :=
  match x with
  | None => false
  | Some x => Qlt_bool x 0
  end.

(** [if (condition) errors.push(message)] *)
Definition push_if (condition : bool) (message : string) (errors : list string)
    : list string :=
  if condition then (errors ++ [message])%list else errors.

(** [validateProductData(data)] *)
Definition validateProductData (data : ProductData) : Validation :=
  let errors := [] in
  let errors := push_if (missing (name data)) "Product name is required" errors in
  let errors := push_if (missing (description data))
                        "Product description is required" errors in
  let errors := push_if match price data with
                        | PriceUndefined | PriceNull => true
                        | PriceNumber _ => false
                        end "Product price is required" errors in
  let errors := push_if (longer_than 255 (name data))
                        "Product name must be less than 255 characters" errors in
  let errors := push_if match price data with
                        | PriceUndefined | PriceNull => false
                        | PriceNumber p => Qlt_bool p 0
                        end "Product price must be positive" errors in
  let errors := push_if (negative (comparePrice data))
                        "Compare price must be positive" errors in
  let errors := push_if (negative (costPrice data))
                        "Cost price must be positive" errors in
  let errors := push_if (negative (quantity data))
                        "Quantity must be non-negative" errors in
  let errors := push_if (negative (weight data))
                        "Weight must be non-negative" errors in
  let errors := push_if (negative (length data))
                        "Length must be non-negative" errors in
  let errors := push_if (negative (width data))
                        "Width must be non-negative" errors in
  let errors := push_if (negative (height data))
                        "Height must be non-negative" errors in
  let errors := push_if (longer_than 100 (sku data))
                        "SKU must be less than 100 characters" errors in
  {| valid := Nat.eqb (List.length errors) 0; errors := errors |}.

(** A product with the three required fields and nothing else. *)
Definition minimal (n d : jsstring) (p : Q) : ProductData :=
  {| name := Some n; description := Some d; price := PriceNumber p;
     comparePrice := None; costPrice := None; quantity := None;
     weight := None; length := None; width := None; height := None;
     sku := None |}.

End ProductValidation.

(** ** Further functions of src/middleware/security *)
Module Security.
Import JsString.
Local Open Scope string_scope.

(** The replacement function of [sanitizeInput]: the entity of each of the
    five characters it matches (ampersand, less-than, greater-than, double
    and single quote). *)
Definition escape (u : N) : jsstring :=
  if N.eqb u 38 then of_string "&amp;"
  else if N.eqb u 60 then of_string "&lt;"
  else if N.eqb u 62 then of_string "&gt;"
  else if N.eqb u 34 then of_string "&quot;"
  else if N.eqb u 39 then of_string "&#x27;"
  else [u].

(** [sanitizeInput(input)] for a string [input]: every match of the
    character class is replaced by its entity, then the result is
    trimmed. *)
Definition sanitizeInput_string (input : jsstring) : jsstring :=
  trim (flat_map escape input).

Definition is_special (u : N) : bool :=
  existsb (N.eqb u) [38; 60; 62; 34; 39]%N.

(** The response [res.status(...).json({ success: false, error, code })]. *)
Record Refusal := { status : Z; error : string; code : string }.

(** JavaScript truthiness of an optional string. *)
Definition truthy (s : option string) : option string :=
  match s with
  | Some EmptyString => None
  | Some s => Some s
  | None => None
  end.

(** [a || b] on optional strings. *)
Definition or_else (a b : option string) : option string :=
  match truthy a with
  | Some s => Some s
  | None => b
  end.

Record NextApiRequest := {
  method : option string;
  x_csrf_token : option string;
  x_forwarded_for : option (string + list string);
  connection_remoteAddress : option string;
  socket_remoteAddress : option string
}.

Definition safe_method (m : option string) : bool :=
  match m with
  | Some m => String.eqb m "GET" || String.eqb m "HEAD" || String.eqb m "OPTIONS"
  | None => false
  end.

(** [withCSRFProtection(req, res, secret)]: [None] when it returns true,
    the response it has written when it returns false.  [verify] is
    [csrfTokens.verify] of the csrf library, [None] when it throws, and
    [env_secret] is [process.env.CSRF_SECRET]. *)
Definition withCSRFProtection (verify : string -> string -> option bool)
    (env_secret : option string) (req : NextApiRequest)
    (secret : option string) : option Refusal :=
  match truthy (or_else secret env_secret) with
  | None =>
      Some {| status := 500; error := "Server configuration error";
              code := "CSRF_SECRET_MISSING" |}
  | Some csrfSecret =>
      if safe_method (method req) then None
      else
        match truthy (x_csrf_token req) with
        | None =>
            Some {| status := 403; error := "CSRF token missing";
                    code := "CSRF_TOKEN_MISSING" |}
        | Some token =>
            match verify csrfSecret token with
            | Some true => None
            | Some false =>
                Some {| status := 403; error := "Invalid CSRF token";
                        code := "CSRF_TOKEN_INVALID" |}
            | None =>
                Some {| status := 403; error := "CSRF token verification failed";
                        code := "CSRF_TOKEN_VERIFICATION_FAILED" |}
            end
        end
  end.

(** The three patterns of [blockedPatterns]. *)
Definition blocked (clientIP : string) : bool :=
  String.eqb clientIP "127.0.0.1"
  || String.prefix "192.168." clientIP
  || String.prefix "10." clientIP.

(** [validateIP(req)]; [NODE_ENV] is [process.env.NODE_ENV].  An undefined
    [clientIP] is tested as the string [undefined]. *)
Definition validateIP (NODE_ENV : option string) (req : NextApiRequest) : bool :=
  let ip :=
    match x_forwarded_for req with
    | Some (inl EmptyString) | None =>
        match or_else (connection_remoteAddress req) (socket_remoteAddress req) with
        | Some a => Some (inl a)
        | None => None
        end
    | Some h => Some h
    end in
  match NODE_ENV with
  | Some "production" =>
      let clientIP :=
        match ip with
        | Some (inl s) => Some s
        | Some (inr l) => List.hd_error l
        | None => None
        end in
      let tested :=
        match clientIP with
        | Some s => s
        | None => "undefined"
        end in
      negb (blocked tested)
  | _ => true
  end.

End Security.

(** ** Amounts away from the rounding ties of a double

    [Currency] rounds the exact amount, currency.js the double that stands
    for it.  The two agree on an amount of moderate size with at most six
    decimal places: in cents it has at most four, which [toFixed(4)] keeps
    as they are.  They can differ by one cent on an amount with more decimal
    places that sits on a tie of [toFixed(4)], 0.2049995 for one.  A
    statement that gives a returned field as the rounding of an input is
    made for the amounts below. *)
Definition six_decimals (x : Q) : Prop :=
  exists n : Z, x == inject_Z n / 1000000.




(** An amount of at most six decimal places, at most one million either
    way. *)
Definition plain_amount (x : Q) : Prop :=
  six_decimals x /\ -1000000 <= x /\ x <= 1000000.


(** ** Rounding lemmas *)

Lemma Qfloor_unique (x : Q) (z : Z) :
  inject_Z z <= x -> x < inject_Z (z + 1) -> Qfloor x = z.
Proof.
  intros Hlo Hhi.
  pose proof (Qfloor_le x) as Hf.
  pose proof (Qlt_floor x) as Hc.
  assert (H1 : inject_Z z < inject_Z (Qfloor x + 1))
    by (eapply Qle_lt_trans; eauto).
  assert (H2 : inject_Z (Qfloor x) < inject_Z (z + 1))
    by (eapply Qle_lt_trans; eauto).
  rewrite <- Zlt_Qlt in H1, H2. lia.
Qed.

Lemma Qfloor_half (z : Z) : Qfloor (inject_Z z + (1 # 2)) = z.
Proof.
  apply Qfloor_unique.
  - lra.
  - rewrite inject_Z_plus. change (inject_Z 1) with 1. lra.
Qed.

Lemma Qfloor_nonneg (x : Q) : 0 <= x -> (0 <= Qfloor x)%Z.
Proof.
  intros H. change 0%Z with (Qfloor 0). now apply Qfloor_resp_le.
Qed.

Module CurrencyFacts.
Import Currency.

#[export] Instance toFixed4_comp : Proper (Qeq ==> Qeq) toFixed4.
Proof.
  intros x y E. unfold toFixed4.
  assert (Eb : Qle_bool 0 x = Qle_bool 0 y) by now rewrite E.
  assert (Ep : Qfloor (x * 10000 + (1 # 2)) = Qfloor (y * 10000 + (1 # 2)))
    by now rewrite E.
  assert (En : Qfloor (- x * 10000 + (1 # 2)) = Qfloor (- y * 10000 + (1 # 2)))
    by now rewrite E.
  rewrite Eb, Ep, En. reflexivity.
Qed.

#[export] Instance Math_round_comp : Proper (Qeq ==> eq) Math_round.
Proof.
  intros x y E. unfold Math_round. now rewrite E.
Qed.

#[export] Instance intValue_comp : Proper (Qeq ==> eq) intValue.
Proof.
  intros x y E. unfold intValue. now rewrite E.
Qed.

#[export] Instance value_comp : Proper (Qeq ==> Qeq) value.
Proof.
  intros x y E. unfold value. now rewrite E.
Qed.

Lemma toFixed4_nonneg (x : Q) : 0 <= x -> 0 <= toFixed4 x.
Proof.
  intros H. unfold toFixed4.
  apply Qle_bool_iff in H. rewrite H. apply Qle_bool_iff in H.
  assert (Hf : (0 <= Qfloor (x * 10000 + (1 # 2)))%Z)
    by (apply Qfloor_nonneg; lra).
  rewrite Zle_Qle in Hf. change (inject_Z 0) with 0 in Hf.
  apply Qle_shift_div_l; lra.
Qed.

Lemma toFixed4_nonpos (x : Q) : x <= 0 -> toFixed4 x <= 0.
Proof.
  intros H. unfold toFixed4.
  destruct (Qle_bool 0 x) eqn:E.
  - apply Qle_bool_iff in E.
    assert (Hx : x == 0) by lra. rewrite Hx. vm_compute. discriminate.
  - assert (Hf : (0 <= Qfloor (- x * 10000 + (1 # 2)))%Z)
      by (apply Qfloor_nonneg; lra).
    rewrite Zle_Qle in Hf. change (inject_Z 0) with 0 in Hf.
    assert (0 <= inject_Z (Qfloor (- x * 10000 + (1 # 2))) / 10000)
      by (apply Qle_shift_div_l; lra).
    lra.
Qed.

Lemma toFixed4_mono (x y : Q) : x <= y -> toFixed4 x <= toFixed4 y.
Proof.
  intros H.
  destruct (Qlt_le_dec x 0) as [Hx | Hx]; destruct (Qlt_le_dec y 0) as [Hy | Hy].
  - unfold toFixed4.
    assert (Ex : Qle_bool 0 x = false).
    { destruct (Qle_bool 0 x) eqn:E; [apply Qle_bool_iff in E; lra | easy]. }
    assert (Ey : Qle_bool 0 y = false).
    { destruct (Qle_bool 0 y) eqn:E; [apply Qle_bool_iff in E; lra | easy]. }
    rewrite Ex, Ey.
    assert (Hf : (Qfloor (- y * 10000 + (1 # 2))
                  <= Qfloor (- x * 10000 + (1 # 2)))%Z)
      by (apply Qfloor_resp_le; lra).
    rewrite Zle_Qle in Hf.
    apply Qopp_le_compat. apply Qmult_le_compat_r; [exact Hf | ].
    vm_compute. discriminate.
  - apply Qle_trans with 0;
      [apply toFixed4_nonpos; lra | now apply toFixed4_nonneg].
  - lra.
  - unfold toFixed4.
    apply Qle_bool_iff in Hx, Hy. rewrite Hx, Hy.
    apply Qle_bool_iff in Hx, Hy.
    assert (Hf : (Qfloor (x * 10000 + (1 # 2))
                  <= Qfloor (y * 10000 + (1 # 2)))%Z)
      by (apply Qfloor_resp_le; lra).
    rewrite Zle_Qle in Hf.
    apply Qmult_le_compat_r; [exact Hf | ].
    vm_compute. discriminate.
Qed.

Lemma intValue_mono (x y : Q) : x <= y -> (intValue x <= intValue y)%Z.
Proof.
  intros H. unfold intValue, Math_round.
  apply Qfloor_resp_le.
  assert (toFixed4 (x * 100) <= toFixed4 (y * 100))
    by (apply toFixed4_mono; lra).
  lra.
Qed.

Lemma value_mono (x y : Q) : x <= y -> value x <= value y.
Proof.
  intros H. unfold value.
  pose proof (intValue_mono x y H) as Hi. rewrite Zle_Qle in Hi.
  apply Qmult_le_compat_r; [exact Hi | ].
  vm_compute. discriminate.
Qed.

Lemma toFixed4_Z (n : Z) : toFixed4 (inject_Z n) == inject_Z n.
Proof.
  unfold toFixed4.
  destruct (Qle_bool 0 (inject_Z n)) eqn:E.
  - assert (Hm : inject_Z n * 10000 == inject_Z (n * 10000))
      by (rewrite inject_Z_mult; reflexivity).
    rewrite Hm, Qfloor_half, inject_Z_mult.
    change (inject_Z 10000) with 10000. field.
  - assert (Hm : - inject_Z n * 10000 == inject_Z (- n * 10000))
      by (rewrite inject_Z_mult, inject_Z_opp; reflexivity).
    rewrite Hm, Qfloor_half, inject_Z_mult, inject_Z_opp.
    change (inject_Z 10000) with 10000. field.
Qed.

Lemma intValue_cents (n : Z) : intValue (inject_Z n / 100) = n.
Proof.
  unfold intValue, Math_round.
  assert (E : inject_Z n / 100 * 100 == inject_Z n) by field.
  rewrite E, toFixed4_Z. apply Qfloor_half.
Qed.

Lemma value_cents (n : Z) : value (inject_Z n / 100) == inject_Z n / 100.
Proof.
  unfold value. now rewrite intValue_cents.
Qed.


Lemma value_nonneg (x : Q) : 0 <= x -> 0 <= value x.
Proof.
  intros H.
  assert (E : value 0 == 0) by (vm_compute; reflexivity).
  rewrite <- E. now apply value_mono.
Qed.

End CurrencyFacts.
Import CurrencyFacts.

(** ** Pricing *)

Lemma fold_subtotal_nonneg (items : list LineItem) (acc : Q) :
  Forall (fun item => 0 <= price item /\ 0 <= quantity item) items ->
  0 <= acc ->
  0 <= fold_left (fun sum item => sum + price item * quantity item) items acc.
Proof.
  intros H. revert acc.
  induction H as [| item items [Hp Hq] _ IH]; intros acc Hacc; simpl.
  - exact Hacc.
  - apply IH.
    assert (0 <= price item * quantity item) by (apply Qmult_le_0_compat; assumption).
    lra.
Qed.

Lemma valid_item_nonneg (item : LineItem) :
  valid_item item -> 0 <= price item /\ 0 <= quantity item.
Proof.
  intros [Hp [n [Hn Hq]]]. split; [exact Hp | ].
  rewrite Hq. change 0 with (inject_Z 0). rewrite <- Zle_Qle. lia.
Qed.

Lemma items_subtotal_nonneg (items : list LineItem) :
  Forall valid_item items -> 0 <= items_subtotal items.
Proof.
  intros H. apply fold_subtotal_nonneg; [ | lra].
  eapply Forall_impl; [ | exact H]. apply valid_item_nonneg.
Qed.

Lemma calculateShipping_default (subtotal shippingRate : Q) :
  calculateShipping subtotal shippingRate None = shippingRate.
Proof. reflexivity. Qed.

Lemma calculateTax_value (subtotal taxRate : Q) :
  calculateTax subtotal taxRate
  == Currency.value (Currency.value subtotal * taxRate).
Proof.
  unfold calculateTax, Currency.multiply_value.
  apply value_comp. unfold Currency.value. field.
Qed.

Lemma calculateTax_nonneg (subtotal taxRate : Q) :
  0 <= subtotal -> 0 <= taxRate -> 0 <= calculateTax subtotal taxRate.
Proof.
  intros Hs Ht. rewrite calculateTax_value.
  apply value_nonneg. apply Qmult_le_0_compat; [ | exact Ht].
  now apply value_nonneg.
Qed.

(** C1. For line items with a non-negative price and a positive whole
    quantity, and non-negative taxRate, shippingRate and discountAmount
    (also a discountAmount above the subtotal), the total returned by
    [calculateOrderTotals] is non-negative. *)
Theorem total_nonneg (items : list LineItem)
    (taxRate shippingRate discountAmount : Q) :
  Forall valid_item items ->
  0 <= taxRate -> 0 <= shippingRate -> 0 <= discountAmount ->
  0 <= total (calculateOrderTotals items taxRate shippingRate discountAmount).
Proof.
  intros Hitems Ht Hs Hd. cbn [calculateOrderTotals total].
  rewrite calculateShipping_default.
  apply value_nonneg.
  pose proof (items_subtotal_nonneg items Hitems) as Hsub.
  pose proof (calculateTax_nonneg _ _ Hsub Ht) as Htax.
  pose proof (Q.le_min_r discountAmount (items_subtotal items)) as Hmin.
  lra.
Qed.

Lemma total_nonneg_witness :
  0 <= total (calculateOrderTotals [{| price := 10; quantity := 3 |}]
                (8 # 100) (599 # 100) 50).
Proof.
  apply (total_nonneg [{| price := 10; quantity := 3 |}] (8 # 100) (599 # 100) 50).
  - constructor; [ | constructor].
    split; [simpl; lra | ]. exists 3%Z. split; [lia | reflexivity].
  - lra.
  - lra.
  - lra.
Defined.

(** C2 does not hold of the code: [calculateOrderTotals] has no threshold
    argument and charges the shipping rate. *)
Lemma scenario_threshold_not_applied :
  ~ (shipping scenario == 0 /\ total scenario == 3240 # 100).
Proof.
  intros [H _]. vm_compute in H. discriminate.
Qed.

(** C2. What the code does in the scenario: [calculateOrderTotals] cannot be
    given the configured threshold and calls [calculateShipping] with two
    arguments, so it returns subtotal 30.00, tax 2.40, shipping 5.99 and
    total 38.39, where free shipping from 25.00 asks for shipping 0 and
    total 32.40; [calculateShipping] itself, given the threshold 25.00,
    returns 0 for the subtotal 30.00. *)
Theorem scenario_totals :
  subtotal scenario == 30 /\
  tax scenario == 240 # 100 /\
  shipping scenario == 599 # 100 /\
  discount scenario == 0 /\
  total scenario == 3839 # 100 /\
  calculateShipping 30 (599 # 100) (Some 25) = 0.
Proof.
  repeat split; vm_compute; reflexivity.
Qed.




Lemma Qlt_bool_iff (x y : Q) : Qlt_bool x y = true <-> x < y.
Proof.
  unfold Qlt_bool. rewrite negb_true_iff.
  destruct (Qle_bool y x) eqn:E.
  - apply Qle_bool_iff in E. split; [discriminate | intros H; lra].
  - split; [intros _ | reflexivity].
    apply Qnot_le_lt. intros H. apply Qle_bool_iff in H. congruence.
Qed.

(** C7. [calculateShipping] returns 0 when the threshold is strictly
    positive and the subtotal reaches it (the boundary included), and the
    shipping rate in every other case, in particular for a zero or absent
    threshold; for a non-zero shipping rate the result is 0 exactly in the
    first case. *)
Theorem calculateShipping_cases (subtotal shippingRate : Q)
    (freeShippingThreshold : option Q) :
  let threshold := threshold_or_default freeShippingThreshold in
  (0 < threshold /\ threshold <= subtotal ->
   calculateShipping subtotal shippingRate freeShippingThreshold = 0) /\
  (~ (0 < threshold /\ threshold <= subtotal) ->
   calculateShipping subtotal shippingRate freeShippingThreshold
   = shippingRate) /\
  (~ shippingRate == 0 ->
   (calculateShipping subtotal shippingRate freeShippingThreshold == 0
    <-> 0 < threshold /\ threshold <= subtotal)) /\
  (0 < subtotal ->
   calculateShipping subtotal shippingRate (Some subtotal) = 0) /\
  calculateShipping subtotal shippingRate (Some 0) = shippingRate /\
  calculateShipping subtotal shippingRate None = shippingRate.
Proof.
  cbv zeta.
  assert (Hyes : 0 < threshold_or_default freeShippingThreshold /\
                 threshold_or_default freeShippingThreshold <= subtotal ->
                 calculateShipping subtotal shippingRate freeShippingThreshold = 0).
  { intros [Hpos Hle]. unfold calculateShipping.
    apply Qlt_bool_iff in Hpos. apply Qle_bool_iff in Hle.
    rewrite Hpos, Hle. reflexivity. }
  assert (Hno : ~ (0 < threshold_or_default freeShippingThreshold /\
                   threshold_or_default freeShippingThreshold <= subtotal) ->
                calculateShipping subtotal shippingRate freeShippingThreshold
                = shippingRate).
  { intros Hn. unfold calculateShipping.
    destruct (Qlt_bool 0 (threshold_or_default freeShippingThreshold)) eqn:E1;
      [ | reflexivity].
    destruct (Qle_bool (threshold_or_default freeShippingThreshold) subtotal) eqn:E2;
      [ | reflexivity].
    exfalso. apply Hn. split; [now apply Qlt_bool_iff | now apply Qle_bool_iff]. }
  split; [exact Hyes | ]. split; [exact Hno | ].
  split; [ | split; [ | split]].
  - intros Hz. split.
    + intros H0.
      destruct (Qlt_le_dec 0 (threshold_or_default freeShippingThreshold)) as [Hp | Hp];
        [destruct (Qlt_le_dec subtotal (threshold_or_default freeShippingThreshold))
           as [Hl | Hl] | ].
      * exfalso. apply Hz. rewrite <- H0. rewrite Hno; [reflexivity | lra].
      * now split.
      * exfalso. apply Hz. rewrite <- H0. rewrite Hno; [reflexivity | lra].
    + intros Hc. rewrite Hyes; [reflexivity | assumption].
  - intros Hpos. unfold calculateShipping, threshold_or_default.
    apply Qlt_bool_iff in Hpos. rewrite Hpos.
    assert (Hle : Qle_bool subtotal subtotal = true) by (apply Qle_bool_iff; lra).
    rewrite Hle. reflexivity.
  - reflexivity.
  - reflexivity.
Qed.

Lemma calculateShipping_cases_witness :
  calculateShipping 25 (599 # 100) (Some 25) = 0 /\
  calculateShipping 24 (599 # 100) (Some 25) = 599 # 100 /\
  (calculateShipping 30 (599 # 100) (Some 25) == 0 <-> 0 < 25 /\ 25 <= 30).
Proof.
  split; [ | split].
  - apply (proj1 (calculateShipping_cases 25 (599 # 100) (Some 25))).
    simpl. split; [reflexivity | discriminate].
  - apply (proj1 (proj2 (calculateShipping_cases 24 (599 # 100) (Some 25)))).
    simpl. intros [_ H]. apply H. reflexivity.
  - apply (proj1 (proj2 (proj2
             (calculateShipping_cases 30 (599 # 100) (Some 25))))).
    intros H. vm_compute in H. discriminate.
Defined.




Lemma intValue_nonneg (x : Q) : 0 <= x -> (0 <= Currency.intValue x)%Z.
Proof.
  intros H. change 0%Z with (Currency.intValue 0). now apply intValue_mono.
Qed.










(** ** The cart store *)

Module StoreFacts.
Import Store.
Local Open Scope string_scope.

Lemma with_store_same (w : World) : with_store (store w) w = w.
Proof. now destruct w. Qed.

Lemma store_blind_ret {A} (a : A) : store_blind (ret a).
Proof. intros w s. reflexivity. Qed.

Lemma store_blind_throw {A} (t : Thrown) : store_blind (@throw A t).
Proof. intros w s. reflexivity. Qed.

Lemma store_blind_bind {A B} (m : Async A) (k : A -> Async B) :
  store_blind m -> (forall a, store_blind (k a)) -> store_blind (bind m k).
Proof.
  intros Hm Hk w s. unfold bind. rewrite Hm.
  destruct (m w) as [[a | t] w']; cbn [fst snd]; [apply Hk | reflexivity].
Qed.

Lemma store_blind_try_catch {A} (m : Async A) (h : Thrown -> Async A) :
  store_blind m -> (forall t, store_blind (h t)) -> store_blind (try_catch m h).
Proof.
  intros Hm Hh w s. unfold try_catch. rewrite Hm.
  destruct (m w) as [[a | t] w']; cbn [fst snd]; [reflexivity | apply Hh].
Qed.

Lemma store_blind_fetch (r : Request) : store_blind (fetch r).
Proof.
  intros w s. unfold fetch. cbn.
  destruct (server w (requests w) r); reflexivity.
Qed.

Lemma store_blind_generateCSRFToken : store_blind generateCSRFToken.
Proof.
  intros w s. unfold generateCSRFToken. cbn.
  destruct (truthy_secret (CSRF_SECRET w)); reflexivity.
Qed.

Lemma store_blind_response_json (r : Response) : store_blind (response_json r).
Proof.
  unfold response_json.
  destruct (json r); [apply store_blind_ret | apply store_blind_throw].
Qed.

Lemma store_blind_if {A} (b : bool) (m1 m2 : Async A) :
  store_blind m1 -> store_blind m2 -> store_blind (if b then m1 else m2).
Proof. now destruct b. Qed.

Create HintDb blind.
#[export] Hint Resolve store_blind_ret store_blind_throw store_blind_fetch
  store_blind_generateCSRFToken store_blind_response_json : blind.

Ltac blind :=
  repeat first
    [ apply store_blind_bind; [ | intro ]
    | apply store_blind_try_catch; [ | intro ]
    | apply store_blind_if
    | solve [auto with blind] ].

Lemma store_blind_getCSRFToken : store_blind getCSRFToken.
Proof. unfold getCSRFToken. blind. Qed.
#[export] Hint Resolve store_blind_getCSRFToken : blind.

Lemma store_blind_getCart : store_blind cartApi.getCart.
Proof. unfold cartApi.getCart. blind. Qed.

Lemma store_blind_addItem item : store_blind (cartApi.addItem item).
Proof. unfold cartApi.addItem. blind. Qed.

Lemma store_blind_updateQuantity itemId quantity :
  store_blind (cartApi.updateQuantity itemId quantity).
Proof. unfold cartApi.updateQuantity. blind. Qed.

Lemma store_blind_removeItem itemId : store_blind (cartApi.removeItem itemId).
Proof. unfold cartApi.removeItem. blind. Qed.

Lemma store_blind_clearCart : store_blind cartApi.clearCart.
Proof. unfold cartApi.clearCart. blind. Qed.

Lemma store_blind_applyDiscount code : store_blind (cartApi.applyDiscount code).
Proof. unfold cartApi.applyDiscount. blind. Qed.

Lemma store_blind_removeDiscount : store_blind cartApi.removeDiscount.
Proof. unfold cartApi.removeDiscount. blind. Qed.

#[export] Hint Resolve store_blind_getCart store_blind_addItem
  store_blind_updateQuantity store_blind_removeItem store_blind_clearCart
  store_blind_applyDiscount store_blind_removeDiscount : blind.

(** A remote call that does not look at the store does not write it. *)
Lemma store_blind_keeps_store {A} (m : Async A) (w : World) :
  store_blind m -> store (snd (m w)) = store w.
Proof.
  intros H. pose proof (H w (store w)) as E.
  rewrite with_store_same in E.
  rewrite E at 1. reflexivity.
Qed.

(** The shape every action of the store has: mark the store as loading,
    await the remote call, then write either the result or the message. *)
Lemma settle_exec {A} (api : Async A) (k : A -> CartState -> CartState)
    (fallback : string) (w : World) :
  store_blind api ->
  exec (set start_loading ;;;
        try_catch (a <- api ;; set (k a))
                  (fun error => set (settle_error error fallback))) w
  = with_store
      match fst (api w) with
      | Fulfilled a => k a (start_loading (store w))
      | Rejected t => settle_error t fallback (start_loading (store w))
      end
      (snd (api w)).
Proof.
  intros H. unfold exec, bind, try_catch, set. cbn [fst snd].
  rewrite H. destruct (api w) as [[a | t] w']; reflexivity.
Qed.

Lemma start_loading_idem (s : CartState) :
  start_loading (start_loading s) = start_loading s.
Proof. reflexivity. Qed.

Lemma with_store_twice (s1 s2 : CartState) (w : World) :
  with_store s1 (with_store s2 w) = with_store s1 w.
Proof. reflexivity. Qed.

Lemma fst_discard {A} (m : Async A) (w : World) (t : Thrown) :
  fst (discard m w) = Rejected t <-> fst (m w) = Rejected t.
Proof.
  unfold discard, bind, ret.
  destruct (m w) as [[a | t'] w']; cbn; split; congruence.
Qed.

(** [updateQuantity] with a quantity [<= 0] is [removeItem], on the whole
    world. *)
Lemma updateQuantity_removes (itemId : string) (quantity : Q) (w : World) :
  Qle_bool quantity 0 = true ->
  exec (updateQuantity itemId quantity) w = exec (removeItem itemId) w.
Proof.
  intros Hq. unfold updateQuantity. rewrite Hq.
  unfold exec at 1. unfold bind at 1. unfold set at 1. unfold try_catch.
  fold (exec (removeItem itemId) w).
  assert (E : removeItem itemId (with_store (start_loading (store w)) w)
              = removeItem itemId w).
  { unfold removeItem, bind at 1 3, set at 1 3. cbn [fst snd].
    cbn [with_store store]. reflexivity. }
  rewrite E. unfold exec.
  assert (F : exists w', removeItem itemId w = (Fulfilled tt, w')).
  { unfold removeItem, bind at 1, set at 1, try_catch, bind, set.
    destruct (cartApi.removeItem itemId _) as [[a | t] w']; eauto. }
  destruct F as [w' F]. rewrite F. reflexivity.
Qed.

Lemma token_missing {A} (rest : Token -> Async A) (w : World) :
  truthy_secret (CSRF_SECRET w) = None ->
  (csrfToken <- getCSRFToken ;; rest csrfToken) w
  = (Rejected (ErrorObj "Security configuration error"), w).
Proof.
  intros H. unfold bind, getCSRFToken, try_catch, generateCSRFToken.
  rewrite H. reflexivity.
Qed.

Lemma token_drawn {A} (rest : Token -> Async A) (w : World) (secret : string) :
  truthy_secret (CSRF_SECRET w) = Some secret ->
  (csrfToken <- getCSRFToken ;; rest csrfToken) w
  = rest {| token_salt := salts w; token_secret := secret |}
         (with_salts (S (salts w)) w).
Proof.
  intros H. unfold bind, getCSRFToken, try_catch, generateCSRFToken.
  rewrite H. reflexivity.
Qed.

(** What [cartApi.removeItem] adds to the log: nothing, or one DELETE. *)
Lemma cartApi_removeItem_requests (itemId : string) (w : World) :
  exists rs, requests (snd (cartApi.removeItem itemId w)) = (requests w ++ rs)%list /\
             Forall (fun r => method r = DELETE) rs.
Proof.
  unfold cartApi.removeItem.
  destruct (truthy_secret (CSRF_SECRET w)) as [secret | ] eqn:E.
  - rewrite (token_drawn _ w secret E).
    unfold bind, fetch. cbn [with_salts server requests].
    eexists [_]. split.
    + destruct (server w (requests w) _) as [t | resp]; cbn [snd].
      * reflexivity.
      * destruct (negb (ok resp)); [reflexivity | ].
        unfold response_json. destruct (json resp); reflexivity.
    + constructor; [reflexivity | constructor].
  - rewrite (token_missing _ w E). exists []. cbn.
    split; [now rewrite app_nil_r | constructor].
Qed.

Lemma generateCSRFToken_fulfilled (w : World) (token : Token) :
  fst (generateCSRFToken w) = Fulfilled token ->
  truthy_secret (CSRF_SECRET w) = Some (token_secret token) /\
  token = {| token_salt := salts w; token_secret := token_secret token |}.
Proof.
  unfold generateCSRFToken.
  destruct (truthy_secret (CSRF_SECRET w)) as [secret | ]; cbn; intros H.
  - injection H as <-. split; reflexivity.
  - discriminate.
Qed.

Lemma generateCSRFToken_rejected (w : World) (t : Thrown) :
  fst (generateCSRFToken w) = Rejected t ->
  truthy_secret (CSRF_SECRET w) = None.
Proof.
  unfold generateCSRFToken.
  destruct (truthy_secret (CSRF_SECRET w)) as [secret | ]; cbn; intros H.
  - discriminate.
  - reflexivity.
Qed.

(** A call that draws a token, sends one request with it and then only
    reads the response: what it leaves in the world. *)
Lemma guarded_call_world {A} (mk : Token -> Request)
    (k : Response -> Async A) (w : World) (token : Token) :
  (forall resp w0, snd (k resp w0) = w0) ->
  fst (generateCSRFToken w) = Fulfilled token ->
  snd ((csrfToken <- getCSRFToken ;;
        response <- fetch (mk csrfToken) ;; k response) w)
  = with_requests (requests w ++ [mk token]) (with_salts (S (salts w)) w).
Proof.
  intros Hk Ht.
  destruct (generateCSRFToken_fulfilled w token Ht) as [Hs Htok].
  rewrite (token_drawn _ w _ Hs), <- Htok.
  unfold bind, fetch. cbn [with_salts server requests].
  destruct (server w (requests w) (mk token)) as [t | resp]; cbn [snd].
  - reflexivity.
  - apply Hk.
Qed.

Lemma guarded_call_refused {A} (mk : Token -> Request) (msg : string)
    (k : Response -> Async A) (w : World) (token : Token) (resp : Response) :
  fst (generateCSRFToken w) = Fulfilled token ->
  server w (requests w) (mk token) = FetchResolves resp ->
  ok resp = false ->
  fst ((csrfToken <- getCSRFToken ;;
        response <- fetch (mk csrfToken) ;;
        if negb (ok response) then throw (ErrorObj msg) else k response) w)
  = Rejected (ErrorObj msg).
Proof.
  intros Ht Hsrv Hok.
  destruct (generateCSRFToken_fulfilled w token Ht) as [Hs Htok].
  rewrite (token_drawn _ w _ Hs), <- Htok.
  unfold bind, fetch. cbn [with_salts server requests].
  rewrite Hsrv, Hok. reflexivity.
Qed.

Lemma guarded_call_accepted {A} (mk : Token -> Request) (msg : string)
    (k : Response -> Async A) (w : World) (token : Token) (resp : Response) :
  fst (generateCSRFToken w) = Fulfilled token ->
  server w (requests w) (mk token) = FetchResolves resp ->
  ok resp = true ->
  (csrfToken <- getCSRFToken ;;
   response <- fetch (mk csrfToken) ;;
   if negb (ok response) then throw (ErrorObj msg) else k response) w
  = k resp (with_requests (requests w ++ [mk token])
                          (with_salts (S (salts w)) w)).
Proof.
  intros Ht Hsrv Hok.
  destruct (generateCSRFToken_fulfilled w token Ht) as [Hs Htok].
  rewrite (token_drawn _ w _ Hs), <- Htok.
  unfold bind, fetch. cbn [with_salts server requests].
  rewrite Hsrv, Hok. reflexivity.
Qed.

Lemma reads_response_json (msg : string) (resp : Response) (w : World) :
  snd ((if negb (ok resp) then throw (ErrorObj msg) else response_json resp) w)
  = w.
Proof.
  destruct (negb (ok resp)); [reflexivity | ].
  unfold response_json. destruct (json resp); reflexivity.
Qed.

Lemma reads_response_void (msg : string) (resp : Response) (w : World) :
  snd ((if negb (ok resp) then throw (ErrorObj msg) else ret tt) w) = w.
Proof.
  destruct (negb (ok resp)); reflexivity.
Qed.

(** The request of a mutating operation and what is left of the world
    once the token is drawn. *)
Lemma mutating_call_world (op : Op) (w : World) (token : Token) :
  mutating op = true ->
  fst (generateCSRFToken w) = Fulfilled token ->
  exists r, csrfHeader r = Some token /\
            snd (remote_call op w)
            = with_requests (requests w ++ [r]) (with_salts (S (salts w)) w).
Proof.
  intros Hm Ht.
  assert (D : forall A (m : Async A) w0 r,
             snd (m w) = w0 -> csrfHeader r = Some token ->
             w0 = with_requests (requests w ++ [r]) (with_salts (S (salts w)) w) ->
             exists r, csrfHeader r = Some token /\
                       snd (discard m w)
                       = with_requests (requests w ++ [r])
                                       (with_salts (S (salts w)) w)).
  { intros A m w0 r E Hr ->. exists r. split; [exact Hr | ].
    unfold discard, bind, ret. rewrite <- E.
    destruct (m w) as [[a | t] w']; reflexivity. }
  destruct op as [ | item | itemId quantity | itemId | | code | ];
    cbn [remote_call mutating] in *; try discriminate.
  - eapply D; [ | | reflexivity].
    + unfold cartApi.addItem.
      apply guarded_call_world; [intros; apply reads_response_json | exact Ht].
    + reflexivity.
  - destruct (Qle_bool quantity 0).
    + eapply D; [ | | reflexivity].
      * unfold cartApi.removeItem.
        apply guarded_call_world; [intros; apply reads_response_json | exact Ht].
      * reflexivity.
    + eapply D; [ | | reflexivity].
      * unfold cartApi.updateQuantity.
        apply guarded_call_world; [intros; apply reads_response_json | exact Ht].
      * reflexivity.
  - eapply D; [ | | reflexivity].
    + unfold cartApi.removeItem.
      apply guarded_call_world; [intros; apply reads_response_json | exact Ht].
    + reflexivity.
  - eexists. split; [ | unfold cartApi.clearCart;
      apply guarded_call_world; [intros; apply reads_response_void | exact Ht]].
    reflexivity.
  - eapply D; [ | | reflexivity].
    + unfold cartApi.applyDiscount.
      apply guarded_call_world; [intros; apply reads_response_json | exact Ht].
    + reflexivity.
  - eapply D; [ | | reflexivity].
    + unfold cartApi.removeDiscount.
      apply guarded_call_world; [intros; apply reads_response_json | exact Ht].
    + reflexivity.
Qed.

(** The store an action leaves when the remote call it awaits fails. *)
Lemma action_rejected (op : Op) (w : World) (t : Thrown) :
  fst (remote_call op w) = Rejected t ->
  store (exec (action op) w)
  = settle_error t (failure_message op) (start_loading (store w)).
Proof.
  intros H.
  destruct op as [ | item | itemId quantity | itemId | | code | ];
    cbn [action remote_call failure_message] in *.
  - apply (proj1 (fst_discard _ _ _)) in H.
    unfold fetchCart. rewrite settle_exec by auto with blind.
    rewrite H. reflexivity.
  - apply (proj1 (fst_discard _ _ _)) in H.
    unfold addItem. rewrite settle_exec by auto with blind.
    rewrite H. reflexivity.
  - destruct (Qle_bool quantity 0) eqn:Hq.
    + apply (proj1 (fst_discard _ _ _)) in H.
      rewrite (updateQuantity_removes itemId quantity w Hq).
      unfold removeItem. rewrite settle_exec by auto with blind.
      rewrite H. reflexivity.
    + apply (proj1 (fst_discard _ _ _)) in H.
      unfold updateQuantity. rewrite Hq.
      rewrite settle_exec by auto with blind.
      rewrite H. reflexivity.
  - apply (proj1 (fst_discard _ _ _)) in H.
    unfold removeItem. rewrite settle_exec by auto with blind.
    rewrite H. reflexivity.
  - unfold clearCart. rewrite settle_exec by auto with blind.
    rewrite H. reflexivity.
  - apply (proj1 (fst_discard _ _ _)) in H.
    unfold applyDiscount. rewrite settle_exec by auto with blind.
    rewrite H. reflexivity.
  - apply (proj1 (fst_discard _ _ _)) in H.
    unfold removeDiscount. rewrite settle_exec by auto with blind.
    rewrite H. reflexivity.
Qed.

Lemma snd_discard {A} (m : Async A) (w : World) :
  snd (discard m w) = snd (m w).
Proof.
  unfold discard, bind, ret. destruct (m w) as [[a | t] w']; reflexivity.
Qed.

(** An action changes the log and the salt source only through its remote
    call. *)
Lemma action_frame (op : Op) (w : World) :
  requests (exec (action op) w) = requests (snd (remote_call op w)) /\
  salts (exec (action op) w) = salts (snd (remote_call op w)).
Proof.
  destruct op as [ | item | itemId quantity | itemId | | code | ];
    cbn [action remote_call].
  - unfold fetchCart. rewrite settle_exec, snd_discard by auto with blind.
    split; reflexivity.
  - unfold addItem. rewrite settle_exec, snd_discard by auto with blind.
    split; reflexivity.
  - destruct (Qle_bool quantity 0) eqn:Hq.
    + rewrite (updateQuantity_removes itemId quantity w Hq).
      unfold removeItem. rewrite settle_exec, snd_discard by auto with blind.
      split; reflexivity.
    + unfold updateQuantity. rewrite Hq.
      rewrite settle_exec, snd_discard by auto with blind.
      split; reflexivity.
  - unfold removeItem. rewrite settle_exec, snd_discard by auto with blind.
    split; reflexivity.
  - unfold clearCart. rewrite settle_exec by auto with blind.
    split; reflexivity.
  - unfold applyDiscount. rewrite settle_exec, snd_discard by auto with blind.
    split; reflexivity.
  - unfold removeDiscount. rewrite settle_exec, snd_discard by auto with blind.
    split; reflexivity.
Qed.

Lemma mutating_call_missing (op : Op) (w : World) :
  mutating op = true ->
  truthy_secret (CSRF_SECRET w) = None ->
  remote_call op w = (Rejected (ErrorObj "Security configuration error"), w).
Proof.
  intros Hm Hs.
  assert (D : forall A (m : Async A),
             m w = (Rejected (ErrorObj "Security configuration error"), w) ->
             discard m w
             = (Rejected (ErrorObj "Security configuration error"), w)).
  { intros A m E. unfold discard, bind. rewrite E. reflexivity. }
  destruct op as [ | item | itemId quantity | itemId | | code | ];
    cbn [remote_call mutating] in *; try discriminate;
    try destruct (Qle_bool quantity 0);
    try apply D; now apply token_missing.
Qed.

Lemma mutating_call_refused (op : Op) (w : World) (token : Token)
    (resp : Response) :
  mutating op = true ->
  fst (generateCSRFToken w) = Fulfilled token ->
  (forall r, server w (requests w) r = FetchResolves resp) ->
  ok resp = false ->
  fst (remote_call op w) = Rejected (ErrorObj (failure_message op)).
Proof.
  intros Hm Ht Hsrv Hok.
  destruct op as [ | item | itemId quantity | itemId | | code | ];
    cbn [remote_call mutating failure_message] in *; try discriminate;
    try destruct (Qle_bool quantity 0);
    try apply (proj2 (fst_discard _ _ _));
    eapply guarded_call_refused; eauto.
Qed.

End StoreFacts.

Module Controller.
Import Store StoreFacts.
Local Open Scope string_scope.

(** C5. For every itemId, every quantity [<= 0] and every remote outcome,
    [updateQuantity(itemId, quantity)] leaves the store (cart, isLoading,
    error), and the whole world with it, as [removeItem(itemId)] does, and
    no request it sends is a PUT to the update endpoint. *)
Theorem updateQuantity_nonpositive_is_removeItem
    (itemId : string) (quantity : Q) (w : World) :
  quantity <= 0 ->
  let updated := exec (updateQuantity itemId quantity) w in
  let removed := exec (removeItem itemId) w in
  updated = removed /\
  cart (store updated) = cart (store removed) /\
  isLoading (store updated) = isLoading (store removed) /\
  error (store updated) = error (store removed) /\
  exists rs, requests updated = (requests w ++ rs)%list /\
             Forall (fun r => method r <> PUT) rs.
Proof.
  intros Hq. cbv zeta.
  apply Qle_bool_iff in Hq.
  rewrite (updateQuantity_removes itemId quantity w Hq).
  repeat (split; [reflexivity | ]).
  unfold removeItem.
  rewrite settle_exec by auto with blind.
  cbn [with_store requests].
  destruct (cartApi_removeItem_requests itemId w) as [rs [E F]].
  exists rs. split; [exact E | ].
  eapply Forall_impl; [ | exact F].
  intros r Hr. rewrite Hr. discriminate.
Qed.

Lemma updateQuantity_nonpositive_is_removeItem_witness :
  exec (updateQuantity "i1" (-1)) refusing = exec (removeItem "i1") refusing.
Proof.
  apply (updateQuantity_nonpositive_is_removeItem "i1" (-1) refusing).
  discriminate.
Defined.

(** C4. For every operation of the controller, if the remote call it awaits
    fails, then at settlement the cart is the one held before the call,
    isLoading is false and error is set: to the message of the thrown error,
    or to the operation's own message when the thrown value is not an
    error. *)
Theorem failed_operation_keeps_cart (op : Op) (w : World) (t : Thrown) :
  fst (remote_call op w) = Rejected t ->
  let settled := store (exec (action op) w) in
  cart settled = cart (store w) /\
  isLoading settled = false /\
  error settled = Some (message_or t (failure_message op)) /\
  exists message, error settled = Some message.
Proof.
  intros H. cbv zeta. rewrite (action_rejected op w t H).
  cbn. repeat split. eauto.
Qed.

Lemma failed_operation_keeps_cart_witness :
  let settled := store (exec (action (AddItem item0)) refusing) in
  cart settled = Some cart1 /\
  isLoading settled = false /\
  error settled = Some "Failed to add item to cart" /\
  exists message, error settled = Some message.
Proof.
  apply (failed_operation_keeps_cart (AddItem item0) refusing
           (ErrorObj "Failed to add item to cart")).
  reflexivity.
Defined.

(** C9. Every mutating operation draws a new anti-forgery token and sends
    it in the header of its one request.  If the token cannot be generated,
    the operation sends no request and settles with isLoading false, the
    cart unchanged and error set to the security-configuration message,
    which differs from the message the operation reports when the server
    refuses the request. *)
Theorem mutating_operation_token (op : Op) (w : World) :
  mutating op = true ->
  let w' := exec (action op) w in
  (forall token, fst (generateCSRFToken w) = Fulfilled token ->
     token_salt token = salts w /\ salts w' = S (salts w) /\
     exists r, requests w' = (requests w ++ [r])%list /\
               csrfHeader r = Some token) /\
  (forall t, fst (generateCSRFToken w) = Rejected t ->
     requests w' = requests w /\
     cart (store w') = cart (store w) /\
     isLoading (store w') = false /\
     error (store w') = Some "Security configuration error") /\
  (forall token resp,
     fst (generateCSRFToken w) = Fulfilled token ->
     (forall r, server w (requests w) r = FetchResolves resp) ->
     ok resp = false ->
     error (store w') = Some (failure_message op)) /\
  "Security configuration error" <> failure_message op.
Proof.
  intros Hm. cbv zeta.
  destruct (action_frame op w) as [Hreq Hsalt].
  split; [ | split; [ | split]].
  - intros token Ht.
    destruct (mutating_call_world op w token Hm Ht) as [r [Hr Hw]].
    destruct (generateCSRFToken_fulfilled w token Ht) as [_ Htok].
    rewrite Hreq, Hsalt, Hw. cbn.
    split; [rewrite Htok; reflexivity | ].
    split; [reflexivity | ].
    exists r. split; [reflexivity | exact Hr].
  - intros t Ht. apply generateCSRFToken_rejected in Ht.
    pose proof (mutating_call_missing op w Hm Ht) as Hcall.
    rewrite Hreq, (action_rejected op w (ErrorObj "Security configuration error"))
      by (rewrite Hcall; reflexivity).
    rewrite Hcall. cbn. repeat split.
  - intros token resp Ht Hsrv Hok.
    rewrite (action_rejected op w (ErrorObj (failure_message op)))
      by (eapply mutating_call_refused; eauto).
    reflexivity.
  - destruct op as [ | item | itemId quantity | itemId | | code | ];
      cbn [failure_message]; try destruct (Qle_bool quantity 0); discriminate.
Qed.

Lemma mutating_operation_token_witness :
  (exists r, requests (exec (action (AddItem item0)) accepting) = [r] /\
             csrfHeader r = Some {| token_salt := 0; token_secret := "s3cret" |}) /\
  error (store (exec (action ClearCart) misconfigured))
  = Some "Security configuration error" /\
  error (store (exec (action (ApplyDiscount "SAVE")) refusing))
  = Some "Failed to apply discount".
Proof.
  split; [ | split].
  - apply (proj1 (mutating_operation_token (AddItem item0) accepting eq_refl)
             {| token_salt := 0; token_secret := "s3cret" |} eq_refl).
  - apply (proj1 (proj2 (mutating_operation_token ClearCart misconfigured eq_refl))
             (ErrorObj "CSRF_SECRET environment variable is required") eq_refl).
  - apply (proj1 (proj2 (proj2
             (mutating_operation_token (ApplyDiscount "SAVE") refusing eq_refl)))
             {| token_salt := 0; token_secret := "s3cret" |}
             {| ok := false; json := JsonCart cart1 |}
             eq_refl (fun _ => eq_refl) eq_refl).
Defined.

(** C3, as the claim states it, fails: with a quantity of 0 the request is
    sent, and when the server accepts it the cart is replaced and no error
    is set. *)
Lemma addItem_zero_is_sent :
  let w' := exec (addItem item0) accepting in
  List.length (requests w') = 1%nat /\
  cart (store w') = Some cart1 /\
  error (store w') = None /\
  ~ (requests w' = requests accepting /\
     cart (store w') = cart (store accepting) /\
     exists message, error (store w') = Some message).
Proof.
  cbv zeta. repeat split.
  intros [H _]. vm_compute in H. discriminate.
Qed.

(** C3. [addItem] does not validate the quantity: for every item, a
    quantity of 0 included, once the anti-forgery token is generated it
    sends one POST to /api/shop/cart/items with the item as body, and the
    settlement follows the response: an accepted request replaces the cart
    and leaves error absent, a refused one keeps the cart and sets error to
    the operation's message. *)
Theorem addItem_not_validated (item : CartItemInput) (w : World)
    (token : Token) :
  fst (generateCSRFToken w) = Fulfilled token ->
  let r := {| url := "/api/shop/cart/items"; method := POST;
              contentTypeJson := true; csrfHeader := Some token;
              body := Some (ItemBody item) |} in
  let w' := exec (addItem item) w in
  requests w' = (requests w ++ [r])%list /\
  (forall c,
     server w (requests w) r = FetchResolves {| ok := true; json := JsonCart c |} ->
     store w' = {| cart := Some c; isLoading := false; error := None |}) /\
  (forall resp,
     server w (requests w) r = FetchResolves resp -> ok resp = false ->
     store w' = {| cart := cart (store w); isLoading := false;
                   error := Some "Failed to add item to cart" |}).
Proof.
  intros Ht. cbv zeta.
  unfold addItem. rewrite settle_exec by auto with blind.
  cbn [with_store requests store].
  split; [ | split].
  - unfold cartApi.addItem.
    rewrite (guarded_call_world _ _ w token); [reflexivity | | exact Ht].
    intros; apply reads_response_json.
  - intros c Hsrv. unfold cartApi.addItem.
    erewrite guarded_call_accepted; [ | exact Ht | exact Hsrv | reflexivity].
    reflexivity.
  - intros resp Hsrv Hok. unfold cartApi.addItem.
    erewrite guarded_call_refused; [ | exact Ht | exact Hsrv | exact Hok].
    reflexivity.
Qed.

Lemma addItem_not_validated_witness :
  store (exec (addItem item0) accepting)
  = {| cart := Some cart1; isLoading := false; error := None |}.
Proof.
  apply (proj1 (proj2 (addItem_not_validated item0 accepting
                         {| token_salt := 0; token_secret := "s3cret" |}
                         eq_refl))).
  reflexivity.
Defined.

End Controller.

(** ** Further properties of the pricing utilities *)

Lemma multiply_value_mono (v m n : Q) :
  0 <= v -> m <= n ->
  Currency.multiply_value v m <= Currency.multiply_value v n.
Proof.
  intros Hv Hmn. unfold Currency.multiply_value.
  apply value_mono.
  pose proof (intValue_nonneg v Hv) as Hi. rewrite Zle_Qle in Hi.
  change (inject_Z 0) with 0 in Hi.
  assert (inject_Z (Currency.intValue v) * m
          <= inject_Z (Currency.intValue v) * n).
  { rewrite (Qmult_comm _ m), (Qmult_comm _ n).
    now apply Qmult_le_compat_r. }
  apply Qmult_le_compat_r; [assumption | ].
  vm_compute. discriminate.
Qed.

Lemma multiply_value_one (v : Q) :
  Currency.multiply_value v 1 == Currency.value v.
Proof.
  unfold Currency.multiply_value.
  assert (E : inject_Z (Currency.intValue v) * 1 / 100
              == inject_Z (Currency.intValue v) / 100) by field.
  rewrite E. apply value_cents.
Qed.

Lemma multiply_value_zero (v : Q) : Currency.multiply_value v 0 == 0.
Proof.
  unfold Currency.multiply_value.
  assert (E : inject_Z (Currency.intValue v) * 0 / 100 == 0) by field.
  rewrite E. vm_compute. reflexivity.
Qed.

#[export] Instance multiply_value_comp :
  Proper (Qeq ==> Qeq ==> Qeq) Currency.multiply_value.
Proof.
  intros v v' Ev n n' En. unfold Currency.multiply_value.
  apply value_comp. rewrite (intValue_comp _ _ Ev), En. reflexivity.
Qed.



(** X2. [calculateDiscountedPrice] with 0 percent returns a non-negative
    price of at most six decimal places rounded to cents; with 100 percent
    it returns 0 for every price; and for a non-negative price a larger
    percentage never gives a higher price. *)
Theorem calculateDiscountedPrice_monotone (price p1 p2 : Q) :
  (plain_amount price -> 0 <= price ->
   calculateDiscountedPrice price 0 == Currency.value price) /\
  calculateDiscountedPrice price 100 == 0 /\
  (0 <= price -> p1 <= p2 ->
   calculateDiscountedPrice price p2 <= calculateDiscountedPrice price p1).
Proof.
  unfold calculateDiscountedPrice. split; [ | split].
  - intros _ _. assert (E : 1 - 0 / 100 == 1) by field.
    rewrite E. apply multiply_value_one.
  - assert (E : 1 - 100 / 100 == 0) by field.
    rewrite E. apply multiply_value_zero.
  - intros Hp H12. apply multiply_value_mono; [exact Hp | ].
    assert (p1 / 100 <= p2 / 100).
    { apply Qmult_le_compat_r; [exact H12 | vm_compute; discriminate]. }
    lra.
Qed.

Lemma calculateDiscountedPrice_monotone_witness :
  calculateDiscountedPrice (1 # 8) 0 == Currency.value (1 # 8) /\
  calculateDiscountedPrice (1999 # 100) 50
  <= calculateDiscountedPrice (1999 # 100) 15.
Proof.
  split.
  - apply (proj1 (calculateDiscountedPrice_monotone (1 # 8) 0 0)).
    + repeat split; [exists 125000%Z; reflexivity | lra | lra].
    + lra.
  - apply (proj2 (proj2 (calculateDiscountedPrice_monotone (1999 # 100) 15 50)));
      lra.
Defined.

Lemma calculateTax_whole_cents (subtotal taxRate : Q) :
  whole_cents (calculateTax subtotal taxRate).
Proof.
  unfold calculateTax, Currency.multiply_value, Currency.value.
  eexists. reflexivity.
Qed.

(** X3. [calculateTax] returns a whole number of cents; a zero rate gives 0,
    and for a non-negative subtotal a higher rate never gives less tax. *)
Theorem calculateTax_cents_monotone (subtotal r1 r2 : Q) :
  whole_cents (calculateTax subtotal r1) /\
  calculateTax subtotal 0 == 0 /\
  (0 <= subtotal -> r1 <= r2 ->
   calculateTax subtotal r1 <= calculateTax subtotal r2).
Proof.
  split; [apply calculateTax_whole_cents | ].
  unfold calculateTax. split.
  - apply multiply_value_zero.
  - intros Hs Hr. now apply multiply_value_mono.
Qed.

Lemma calculateTax_cents_monotone_witness :
  calculateTax 30 (8 # 100) <= calculateTax 30 (10 # 100).
Proof.
  apply (proj2 (proj2 (calculateTax_cents_monotone 30 (8 # 100) (10 # 100))));
    lra.
Defined.




Lemma whole_cents_value (x : Q) : whole_cents (Currency.value x).
Proof. unfold Currency.value. eexists. reflexivity. Qed.









(** ** Inventory status, price filter and product variants *)

Module InventoryFacts.
Import Inventory.

Lemma Qle_bool_false (x y : Q) : Qle_bool x y = false <-> y < x.
Proof.
  split.
  - intros H. apply Qnot_le_lt. intros Hle.
    apply Qle_bool_iff in Hle. congruence.
  - intros H. destruct (Qle_bool x y) eqn:E; [ | reflexivity].
    apply Qle_bool_iff in E. lra.
Qed.

(** X7. With the same tracking flag and low-stock level, a larger quantity
    never gives a worse inventory status (out of stock, then low stock,
    then in stock). *)
Theorem getInventoryStatus_monotone (track : bool) (low q1 q2 : Q) :
  q1 <= q2 ->
  (rank (getInventoryStatus
           {| trackQuantity := track; quantity := q1; lowStockLevel := low |})
   <= rank (getInventoryStatus
              {| trackQuantity := track; quantity := q2; lowStockLevel := low |}))%nat.
Proof.
  intros H. unfold getInventoryStatus. cbn [trackQuantity quantity lowStockLevel].
  destruct track; cbn [negb]; [ | apply Nat.le_refl].
  destruct (Qle_bool q1 0) eqn:E1; [cbn; lia | ].
  apply Qle_bool_false in E1.
  assert (E2 : Qle_bool q2 0 = false) by (apply Qle_bool_false; lra).
  rewrite E2.
  destruct (Qle_bool q1 low) eqn:E3.
  - destruct (Qle_bool q2 low); cbn; lia.
  - apply Qle_bool_false in E3.
    assert (E4 : Qle_bool q2 low = false) by (apply Qle_bool_false; lra).
    rewrite E4. cbn. lia.
Qed.

Lemma getInventoryStatus_monotone_witness :
  (rank (getInventoryStatus
           {| trackQuantity := true; quantity := 2; lowStockLevel := 5 |})
   <= rank (getInventoryStatus
              {| trackQuantity := true; quantity := 9; lowStockLevel := 5 |}))%nat.
Proof.
  apply (getInventoryStatus_monotone true 5 2 9). lra.
Defined.

(** X8. A product is reported out of stock exactly when it tracks its
    quantity and the quantity is at most 0; a product that does not track
    its quantity is in stock whatever the quantity, and with a low-stock
    level of 0 or less no product is ever reported as low in stock. *)
Theorem getInventoryStatus_out_of_stock (product : Product) :
  (getInventoryStatus product = out_of_stock
   <-> trackQuantity product = true /\ quantity product <= 0) /\
  (trackQuantity product = false -> getInventoryStatus product = in_stock) /\
  (lowStockLevel product <= 0 -> getInventoryStatus product <> low_stock).
Proof.
  unfold getInventoryStatus.
  destruct (trackQuantity product); cbn [negb].
  - destruct (Qle_bool (quantity product) 0) eqn:E1.
    + apply Qle_bool_iff in E1.
      repeat split; try assumption; discriminate.
    + apply Qle_bool_false in E1.
      destruct (Qle_bool (quantity product) (lowStockLevel product)) eqn:E2.
      * apply Qle_bool_iff in E2. split; [ | split].
        -- split; [discriminate | intros [_ H]; lra].
        -- discriminate.
        -- intros H. lra.
      * split; [ | split].
        -- split; [discriminate | intros [_ H]; lra].
        -- discriminate.
        -- discriminate.
  - split; [ | split].
    + split; [discriminate | intros [H _]; discriminate].
    + reflexivity.
    + discriminate.
Qed.

Lemma getInventoryStatus_out_of_stock_witness :
  getInventoryStatus
    {| trackQuantity := true; quantity := 0; lowStockLevel := 5 |}
  = out_of_stock /\
  getInventoryStatus
    {| trackQuantity := false; quantity := -3; lowStockLevel := 5 |}
  = in_stock /\
  getInventoryStatus
    {| trackQuantity := true; quantity := 1; lowStockLevel := 0 |}
  <> low_stock.
Proof.
  split; [ | split].
  - apply (proj1 (getInventoryStatus_out_of_stock
                    {| trackQuantity := true; quantity := 0; lowStockLevel := 5 |})).
    split; [reflexivity | cbn; lra].
  - apply (proj1 (proj2 (getInventoryStatus_out_of_stock
                    {| trackQuantity := false; quantity := -3; lowStockLevel := 5 |}))).
    reflexivity.
  - apply (proj2 (proj2 (getInventoryStatus_out_of_stock
                    {| trackQuantity := true; quantity := 1; lowStockLevel := 0 |}))).
    cbn. lra.
Defined.

End InventoryFacts.

Lemma price_in_range_iff (minPrice maxPrice : option Q) (p : Q) :
  price_in_range minPrice maxPrice p = true <->
  (forall m, minPrice = Some m -> m <= p) /\
  (forall m, maxPrice = Some m -> p <= m).
Proof.
  unfold price_in_range.
  destruct minPrice as [a | ]; destruct maxPrice as [b | ].
  - destruct (Qlt_bool p a) eqn:E1.
    + apply Qlt_bool_iff in E1. split; [discriminate | ].
      intros [H _]. specialize (H a eq_refl). lra.
    + destruct (Qlt_bool b p) eqn:E2.
      * apply Qlt_bool_iff in E2. split; [discriminate | ].
        intros [_ H]. specialize (H b eq_refl). lra.
      * split; [intros _ | reflexivity].
        split; intros m [= <-]; apply Qnot_lt_le; intros H;
          apply Qlt_bool_iff in H; congruence.
  - destruct (Qlt_bool p a) eqn:E1.
    + apply Qlt_bool_iff in E1. split; [discriminate | ].
      intros [H _]. specialize (H a eq_refl). lra.
    + split; [intros _ | reflexivity].
      split; [ | discriminate].
      intros m [= <-]; apply Qnot_lt_le; intros H;
        apply Qlt_bool_iff in H; congruence.
  - destruct (Qlt_bool b p) eqn:E2.
    + apply Qlt_bool_iff in E2. split; [discriminate | ].
      intros [_ H]. specialize (H b eq_refl). lra.
    + split; [intros _ | reflexivity].
      split; [discriminate | ].
      intros m [= <-]; apply Qnot_lt_le; intros H;
        apply Qlt_bool_iff in H; congruence.
  - split; [intros _ | reflexivity]. split; discriminate.
Qed.

(** X9. [filterProductsByPrice] keeps exactly the products whose price lies
    between the bounds given, both bounds included; it works product by
    product, so the order and the repetitions of the list are kept; and
    without bounds it returns the list unchanged. *)
Theorem filterProductsByPrice_keeps {T : Type} (price : T -> Q)
    (products more : list T) (minPrice maxPrice : option Q) :
  (forall product,
     In product (filterProductsByPrice price products minPrice maxPrice) <->
     In product products /\
     (forall m, minPrice = Some m -> m <= price product) /\
     (forall m, maxPrice = Some m -> price product <= m)) /\
  filterProductsByPrice price (products ++ more)%list minPrice maxPrice
  = (filterProductsByPrice price products minPrice maxPrice
     ++ filterProductsByPrice price more minPrice maxPrice)%list /\
  filterProductsByPrice price products None None = products.
Proof.
  split; [ | split].
  - intros product. unfold filterProductsByPrice.
    rewrite filter_In, price_in_range_iff. reflexivity.
  - apply filter_app.
  - unfold filterProductsByPrice, price_in_range.
    induction products as [| product products IH]; [reflexivity | ].
    cbn. now rewrite IH.
Qed.

Lemma filterProductsByPrice_keeps_witness :
  In (5 # 1) (filterProductsByPrice (fun p : Q => p) [1; 5; 12] (Some 5) (Some 10)).
Proof.
  apply (proj1 (filterProductsByPrice_keeps (fun p : Q => p) [1; 5; 12] []
                  (Some 5) (Some 10)) 5).
  split; [cbn; tauto | ].
  split; intros m [= <-]; lra.
Defined.

Lemma price_in_range_both (a b c d p : Q) :
  price_in_range (Some (Qmax a c)) (Some (Qmin b d)) p
  = price_in_range (Some a) (Some b) p && price_in_range (Some c) (Some d) p.
Proof.
  apply eq_true_iff_eq.
  rewrite andb_true_iff, !price_in_range_iff.
  split.
  - intros [Hlo Hhi].
    specialize (Hlo _ eq_refl). specialize (Hhi _ eq_refl).
    apply Q.max_lub_iff in Hlo. apply Q.min_glb_iff in Hhi.
    repeat split; intros m [= <-]; tauto.
  - intros [[H1 H2] [H3 H4]].
    specialize (H1 _ eq_refl). specialize (H2 _ eq_refl).
    specialize (H3 _ eq_refl). specialize (H4 _ eq_refl).
    split; intros m [= <-].
    + now apply Q.max_lub.
    + now apply Q.min_glb.
Qed.

(** X10. Filtering by one price range and then by a second one is filtering
    once by their intersection, so the two filters can be applied in either
    order; a range whose lower bound is above its upper bound keeps
    nothing. *)
Theorem filterProductsByPrice_twice {T : Type} (price : T -> Q)
    (products : list T) (a b c d : Q) :
  filterProductsByPrice price
    (filterProductsByPrice price products (Some a) (Some b)) (Some c) (Some d)
  = filterProductsByPrice price products
      (Some (Qmax a c)) (Some (Qmin b d)) /\
  filterProductsByPrice price
    (filterProductsByPrice price products (Some a) (Some b)) (Some c) (Some d)
  = filterProductsByPrice price
      (filterProductsByPrice price products (Some c) (Some d)) (Some a) (Some b) /\
  (b < a -> filterProductsByPrice price products (Some a) (Some b) = []).
Proof.
  assert (F : forall a b c d,
             filterProductsByPrice price
               (filterProductsByPrice price products (Some a) (Some b))
               (Some c) (Some d)
             = filter (fun product =>
                         price_in_range (Some a) (Some b) (price product)
                         && price_in_range (Some c) (Some d) (price product))
                      products).
  { intros a' b' c' d'. unfold filterProductsByPrice.
    induction products as [| product products IH]; [reflexivity | ].
    cbn [filter].
    destruct (price_in_range (Some a') (Some b') (price product)); cbn [filter andb].
    - destruct (price_in_range (Some c') (Some d') (price product));
        now rewrite IH.
    - exact IH. }
  split; [ | split].
  - rewrite F. unfold filterProductsByPrice.
    apply filter_ext. intros product. now rewrite price_in_range_both.
  - rewrite !F. apply filter_ext. intros product. apply andb_comm.
  - intros Hba. clear F. unfold filterProductsByPrice.
    induction products as [| product products IH]; [reflexivity | ].
    cbn [filter].
    destruct (price_in_range (Some a) (Some b) (price product)) eqn:E;
      [ | exact IH].
    apply price_in_range_iff in E. destruct E as [Hlo Hhi].
    specialize (Hlo _ eq_refl). specialize (Hhi _ eq_refl). lra.
Qed.

Lemma filterProductsByPrice_twice_witness :
  filterProductsByPrice (fun p : Q => p) [1; 5; 12] (Some 10) (Some 5) = [].
Proof.
  apply (proj2 (proj2 (filterProductsByPrice_twice (fun p : Q => p) [1; 5; 12]
                         10 5 0 0))).
  lra.
Defined.

Module VariantsFacts.
Import Variants.

Lemma length_flat_map_const {A B} (f : A -> list B) (l : list A) (k : nat) :
  (forall x, List.length (f x) = k) ->
  List.length (flat_map f l) = (List.length l * k)%nat.
Proof.
  intros H. induction l as [| x l IH]; [reflexivity | ].
  cbn [flat_map]. rewrite length_app, H, IH. cbn. lia.
Qed.

Lemma generateCombinations_length (options : list (string * list string)) :
  forall index current,
    List.length (generateCombinations index options current)
    = fold_right Nat.mul 1%nat (map (fun o => List.length (snd o)) options).
Proof.
  induction options as [| [optionName values] rest IH]; intros index current.
  - reflexivity.
  - cbn [generateCombinations map fold_right snd].
    apply length_flat_map_const. intros value. apply IH.
Qed.

(** X11. For at least one option, [generateProductVariants] returns as many
    variants as the product of the numbers of values of the options; for no
    option at all it returns no variant, and an option without values
    leaves no variant either. *)
Theorem generateProductVariants_count (options : list (string * list string)) :
  (options <> [] ->
   List.length (generateProductVariants options)
   = fold_right Nat.mul 1%nat (map (fun o => List.length (snd o)) options)) /\
  generateProductVariants [] = [] /\
  (forall optionName, In (optionName, []) options ->
   generateProductVariants options = []).
Proof.
  split; [ | split].
  - intros Hne. destruct options as [| o rest]; [congruence | ].
    unfold generateProductVariants. apply generateCombinations_length.
  - reflexivity.
  - intros optionName Hin.
    assert (Hlen : List.length (generateProductVariants options) = 0%nat).
    { destruct options as [| o rest]; [reflexivity | ].
      unfold generateProductVariants. rewrite generateCombinations_length.
      clear - Hin. induction (o :: rest) as [| [n vs] l IH]; [destruct Hin | ].
      cbn [map fold_right snd]. destruct Hin as [E | Hin].
      - injection E as _ ->. reflexivity.
      - rewrite (IH Hin). lia. }
    now apply length_zero_iff_nil.
Qed.

Lemma generateProductVariants_count_witness :
  List.length (generateProductVariants
                 [("Size"%string, ["S"; "M"; "L"]%string);
                  ("Color"%string, ["Red"; "Blue"]%string)])
  = 6%nat /\
  generateProductVariants
    [("Size"%string, ["S"; "M"; "L"]%string); ("Color"%string, [])] = [].
Proof.
  split.
  - apply (proj1 (generateProductVariants_count
                    [("Size"%string, ["S"; "M"; "L"]%string);
                     ("Color"%string, ["Red"; "Blue"]%string)])).
    discriminate.
  - apply (proj2 (proj2 (generateProductVariants_count
                    [("Size"%string, ["S"; "M"; "L"]%string);
                     ("Color"%string, [])])) "Color"%string).
    cbn. tauto.
Defined.





End VariantsFacts.

(** ** Card numbers and barcodes *)

Module DigitsFacts.
Import Ascii Digits.

Lemma list_ascii_of_string_app (s1 s2 : string) :
  list_ascii_of_string (s1 ++ s2)
  = (list_ascii_of_string s1 ++ list_ascii_of_string s2)%list.
Proof.
  induction s1 as [| c s1 IH]; [reflexivity | ].
  cbn. now rewrite IH.
Qed.

Lemma is_digit_range (c : ascii) :
  is_digit c = true <-> (0 <= digit_value c <= 9)%Z.
Proof.
  unfold is_digit, digit_value.
  rewrite andb_true_iff, Z.leb_le, Z.leb_le. lia.
Qed.

Lemma digit_value_inj (c1 c2 : ascii) :
  digit_value c1 = digit_value c2 -> c1 = c2.
Proof.
  unfold digit_value, code. intros H.
  assert (E : N_of_ascii c1 = N_of_ascii c2) by lia.
  rewrite <- (ascii_N_embedding c1), <- (ascii_N_embedding c2).
  now rewrite E.
Qed.

(** The character of a digit. *)
Lemma digit_char (d : Z) :
  (0 <= d <= 9)%Z ->
  exists c, is_digit c = true /\ digit_value c = d /\
            Number_toString d = String c EmptyString.
Proof.
  intros H.
  assert (C : (d = 0 \/ d = 1 \/ d = 2 \/ d = 3 \/ d = 4 \/ d = 5 \/ d = 6
               \/ d = 7 \/ d = 8 \/ d = 9)%Z) by lia.
  repeat (destruct C as [-> | C]; [eexists; repeat split; reflexivity | ]).
  subst d. eexists; repeat split; reflexivity.
Qed.

End DigitsFacts.

Module CreditCardFacts.
Import Ascii Digits DigitsFacts CreditCard.

Lemma luhn_acc (digits : list ascii) :
  forall shouldDouble sum,
    luhn digits shouldDouble sum = (sum + luhn digits shouldDouble 0)%Z.
Proof.
  induction digits as [| c rest IH]; intros b s; cbn [luhn].
  - lia.
  - rewrite (IH _ (s + _)%Z), (IH _ (0 + _)%Z). lia.
Qed.

Lemma luhn_app (l1 l2 : list ascii) :
  forall shouldDouble,
    luhn (l1 ++ l2) shouldDouble 0
    = (luhn l1 shouldDouble 0
       + luhn l2 (xorb shouldDouble (Nat.odd (List.length l1))) 0)%Z.
Proof.
  induction l1 as [| c l1 IH]; intros b.
  - cbn. now rewrite xorb_false_r.
  - cbn [app luhn List.length].
    rewrite (luhn_acc (l1 ++ l2)), (luhn_acc l1), IH.
    rewrite Nat.odd_succ, <- Nat.negb_odd.
    replace (xorb (negb b) (Nat.odd (List.length l1)))
      with (xorb b (negb (Nat.odd (List.length l1))))
      by (destruct b, (Nat.odd (List.length l1)); reflexivity).
    lia.
Qed.

Lemma contribution_range (shouldDouble : bool) (c : ascii) :
  is_digit c = true -> (0 <= contribution shouldDouble c <= 9)%Z.
Proof.
  intros H. apply is_digit_range in H. unfold contribution.
  destruct shouldDouble; [ | exact H].
  cbv zeta. destruct (9 <? digit_value c * 2)%Z eqn:E.
  - apply Z.ltb_lt in E. lia.
  - apply Z.ltb_ge in E. lia.
Qed.

Lemma contribution_inj (shouldDouble : bool) (c1 c2 : ascii) :
  is_digit c1 = true -> is_digit c2 = true ->
  contribution shouldDouble c1 = contribution shouldDouble c2 -> c1 = c2.
Proof.
  intros H1 H2 E. apply is_digit_range in H1, H2.
  apply digit_value_inj. unfold contribution in E.
  destruct shouldDouble; [ | exact E]. cbv zeta in E.
  destruct (9 <? digit_value c1 * 2)%Z eqn:E1;
    destruct (9 <? digit_value c2 * 2)%Z eqn:E2;
    try apply Z.ltb_lt in E1; try apply Z.ltb_ge in E1;
    try apply Z.ltb_lt in E2; try apply Z.ltb_ge in E2; lia.
Qed.

Lemma luhn_nonneg (digits : list ascii) :
  forall shouldDouble,
    Forall (fun c => is_digit c = true) digits ->
    (0 <= luhn digits shouldDouble 0)%Z.
Proof.
  induction digits as [| c rest IH]; intros b H; cbn [luhn]; [lia | ].
  inversion H as [| ? ? Hc Hrest]; subst.
  rewrite luhn_acc.
  pose proof (contribution_range b c Hc). pose proof (IH (negb b) Hrest). lia.
Qed.

Lemma strip_digits (cardNumber : string) :
  Forall (fun c => is_digit c = true) (strip cardNumber).
Proof.
  unfold strip. apply Forall_forall. intros c Hc.
  now apply filter_In in Hc.
Qed.

Lemma strip_insert (before after : string) (c : ascii) :
  strip (before ++ String c after)
  = (strip before ++ (if is_digit c then [c] else []) ++ strip after)%list.
Proof.
  unfold strip. rewrite list_ascii_of_string_app, filter_app.
  cbn [list_ascii_of_string filter].
  destruct (is_digit c); reflexivity.
Qed.

(** The sum of the loop for a number with the digit [c] between [before]
    and [after]. *)
Lemma luhn_insert (before after : list ascii) (c : ascii) :
  luhn (rev (before ++ c :: after)) false 0
  = (luhn (rev after) false 0
     + contribution (Nat.odd (List.length after)) c
     + luhn (rev before) (negb (Nat.odd (List.length after))) 0)%Z.
Proof.
  rewrite rev_app_distr. cbn [rev]. rewrite <- app_assoc. cbn [app].
  rewrite luhn_app, length_rev, xorb_false_l. cbn [luhn].
  rewrite (luhn_acc (rev before)). lia.
Qed.

(** X13. [validateCreditCard] looks at the digits only: a character that is
    not a digit (a space, a dash, a letter) can be inserted anywhere without
    changing the answer; and a number with fewer than 13 or more than 19
    digits is refused whatever its digits are. *)
Theorem validateCreditCard_ignores_separators
    (before after : string) (c : ascii) :
  (is_digit c = false ->
   validateCreditCard (before ++ String c after)
   = validateCreditCard (before ++ after)) /\
  ((List.length (strip (before ++ after)) < 13)%nat \/
   (19 < List.length (strip (before ++ after)))%nat ->
   validateCreditCard (before ++ after) = false).
Proof.
  split.
  - intros Hc. unfold validateCreditCard.
    assert (E : strip (before ++ String c after) = strip (before ++ after)).
    { rewrite strip_insert, Hc. unfold strip.
      now rewrite list_ascii_of_string_app, filter_app. }
    now rewrite E.
  - intros H. unfold validateCreditCard. cbv zeta.
    destruct H as [H | H].
    + apply Nat.ltb_lt in H. now rewrite H.
    + apply Nat.ltb_lt in H. rewrite H. now rewrite orb_true_r.
Qed.

Lemma validateCreditCard_ignores_separators_witness :
  validateCreditCard ("4111 1111" ++ String "-" "1111 1111")
  = validateCreditCard ("4111 1111" ++ "1111 1111") /\
  validateCreditCard ("4111" ++ "1111") = false.
Proof.
  split.
  - apply (proj1 (validateCreditCard_ignores_separators
                    "4111 1111" "1111 1111" "-")).
    reflexivity.
  - apply (proj2 (validateCreditCard_ignores_separators "4111" "1111" "-")).
    left. cbn. lia.
Defined.

(** X14. The check of [validateCreditCard] detects every single wrong
    digit: if a number is accepted, the number with one of its digits
    replaced by a different digit is refused. *)
Theorem validateCreditCard_detects_wrong_digit
    (before after : string) (c1 c2 : ascii) :
  is_digit c1 = true -> is_digit c2 = true -> c1 <> c2 ->
  validateCreditCard (before ++ String c1 after) = true ->
  validateCreditCard (before ++ String c2 after) = false.
Proof.
  intros H1 H2 Hne Hv. unfold validateCreditCard in *. cbv zeta in *.
  rewrite strip_insert in *. rewrite H1 in Hv. rewrite H2.
  cbn [app] in *.
  assert (L : List.length (strip before ++ c2 :: strip after)
              = List.length (strip before ++ c1 :: strip after))
    by (rewrite !length_app; reflexivity).
  rewrite L.
  destruct ((List.length (strip before ++ c1 :: strip after) <? 13)%nat
            || (19 <? List.length (strip before ++ c1 :: strip after))%nat);
    [reflexivity | ].
  apply Z.eqb_eq in Hv. apply Z.eqb_neq. intros Hv2.
  rewrite luhn_insert in Hv, Hv2.
  apply Z.rem_divide in Hv; [ | lia]. apply Z.rem_divide in Hv2; [ | lia].
  destruct Hv as [k1 Hk1]. destruct Hv2 as [k2 Hk2].
  pose proof (contribution_range (Nat.odd (List.length (strip after))) c1 H1).
  pose proof (contribution_range (Nat.odd (List.length (strip after))) c2 H2).
  apply Hne.
  apply (contribution_inj (Nat.odd (List.length (strip after)))); try assumption.
  lia.
Qed.

Lemma validateCreditCard_detects_wrong_digit_witness :
  validateCreditCard ("41111111" ++ String "7" "1111111") = false.
Proof.
  apply (validateCreditCard_detects_wrong_digit
           "41111111" "1111111" "1" "7"); try reflexivity.
  discriminate.
Defined.

Lemma luhn_with_last (payload : list ascii) (c : ascii) :
  luhn (rev (payload ++ [c])) false 0
  = (digit_value c + luhn (rev payload) true 0)%Z.
Proof.
  rewrite luhn_insert. cbn. lia.
Qed.

(** X15. Every number of 12 to 18 digits can be completed by exactly one
    last digit to a number that [validateCreditCard] accepts. *)
Theorem validateCreditCard_check_digit (payload : string) :
  (12 <= List.length (strip payload) <= 18)%nat ->
  exists c,
    is_digit c = true /\
    validateCreditCard (payload ++ String c EmptyString) = true /\
    forall c', is_digit c' = true ->
               validateCreditCard (payload ++ String c' EmptyString) = true ->
               c' = c.
Proof.
  intros Hlen.
  set (T := luhn (rev (strip payload)) true 0).
  assert (HT : (0 <= T)%Z).
  { apply luhn_nonneg. apply Forall_rev. apply strip_digits. }
  assert (V : forall c, is_digit c = true ->
                        validateCreditCard (payload ++ String c EmptyString)
                        = ((digit_value c + T) mod 10 =? 0)%Z).
  { intros c Hc. unfold validateCreditCard. cbv zeta.
    rewrite strip_insert, Hc. cbn [strip list_ascii_of_string filter].
    rewrite app_nil_r, length_app. cbn [List.length].
    assert (E1 : (List.length (strip payload) + 1 <? 13)%nat = false)
      by (apply Nat.ltb_ge; lia).
    assert (E2 : (19 <? List.length (strip payload) + 1)%nat = false)
      by (apply Nat.ltb_ge; lia).
    rewrite E1, E2. cbn [orb].
    rewrite luhn_with_last. fold T.
    apply is_digit_range in Hc.
    rewrite Z.rem_mod_nonneg by lia. reflexivity. }
  destruct (digit_char ((10 - T mod 10) mod 10)) as [c [Hc [Hd _]]].
  { pose proof (Z.mod_pos_bound (10 - T mod 10) 10). lia. }
  exists c. split; [exact Hc | ]. split.
  - rewrite (V c Hc), Hd. apply Z.eqb_eq.
    Z.div_mod_to_equations. lia.
  - intros c' Hc' Hv. rewrite (V c' Hc') in Hv. apply Z.eqb_eq in Hv.
    apply digit_value_inj. rewrite Hd.
    apply is_digit_range in Hc'.
    Z.div_mod_to_equations. lia.
Qed.

Lemma validateCreditCard_check_digit_witness :
  exists c,
    is_digit c = true /\
    validateCreditCard ("411111111111111" ++ String c EmptyString) = true /\
    forall c', is_digit c' = true ->
               validateCreditCard ("411111111111111" ++ String c' EmptyString)
               = true ->
               c' = c.
Proof.
  apply (validateCreditCard_check_digit "411111111111111").
  cbn. lia.
Defined.

End CreditCardFacts.

Module BarcodeFacts.
Import Ascii Digits DigitsFacts Barcode.

Lemma random_digit_range (r : Q) :
  0 <= r /\ r < 1 -> (0 <= Qfloor (r * 10) <= 9)%Z.
Proof.
  intros [H0 H1]. split.
  - apply Qfloor_nonneg. lra.
  - pose proof (Qfloor_le (r * 10)) as Hf.
    assert (Hlt : inject_Z (Qfloor (r * 10)) < inject_Z 10)
      by (change (inject_Z 10) with 10; lra).
    rewrite <- Zlt_Qlt in Hlt. lia.
Qed.

(** The first loop leaves twelve digit characters. *)
Lemma random_digits_chars (random : nat -> Q) :
  (forall i, 0 <= random i /\ random i < 1) ->
  exists digits,
    List.length digits = 12%nat /\
    Forall (fun c => is_digit c = true) digits /\
    random_digits random = string_of_list_ascii digits.
Proof.
  intros H.
  assert (D : forall i, exists c,
               is_digit c = true /\
               Number_toString (Qfloor (random i * 10)) = String c EmptyString).
  { intros i. destruct (digit_char _ (random_digit_range _ (H i)))
      as [c [Hc [_ Hs]]]. eauto. }
  destruct (D 0%nat) as [c0 [H0 E0]]. destruct (D 1%nat) as [c1 [H1 E1]].
  destruct (D 2%nat) as [c2 [H2 E2]]. destruct (D 3%nat) as [c3 [H3 E3]].
  destruct (D 4%nat) as [c4 [H4 E4]]. destruct (D 5%nat) as [c5 [H5 E5]].
  destruct (D 6%nat) as [c6 [H6 E6]]. destruct (D 7%nat) as [c7 [H7 E7]].
  destruct (D 8%nat) as [c8 [H8 E8]]. destruct (D 9%nat) as [c9 [H9 E9]].
  destruct (D 10%nat) as [c10 [H10 E10]]. destruct (D 11%nat) as [c11 [H11 E11]].
  exists [c0; c1; c2; c3; c4; c5; c6; c7; c8; c9; c10; c11].
  split; [reflexivity | ]. split; [repeat constructor; assumption | ].
  unfold random_digits. cbn [seq fold_left].
  rewrite E0, E1, E2, E3, E4, E5, E6, E7, E8, E9, E10, E11.
  reflexivity.
Qed.

(** The second loop computes the EAN-13 sum of the twelve digits. *)
Lemma weighted_sum_digits (digits : list ascii) :
  List.length digits = 12%nat ->
  Forall (fun c => is_digit c = true) digits ->
  weighted_sum (string_of_list_ascii digits) = Some (ean13_sum true digits).
Proof.
  intros Hlen Hd.
  do 13 (destruct digits as [| ? digits]; try discriminate Hlen).
  repeat match goal with
         | H : Forall _ (_ :: _) |- _ => inversion H; clear H; subst
         end.
  unfold weighted_sum. cbn [seq fold_left string_of_list_ascii String.get].
  cbn [Nat.modulo Nat.divmod Nat.eqb fst snd Nat.sub parseInt].
  repeat match goal with
         | H : is_digit ?c = true |- _ => rewrite H; clear H
         end.
  cbn [ean13_sum negb]. f_equal. lia.
Qed.

Lemma ean13_sum_app (l1 l2 : list ascii) :
  forall odd_place,
    ean13_sum odd_place (l1 ++ l2)
    = (ean13_sum odd_place l1
       + ean13_sum (xorb odd_place (Nat.odd (List.length l1))) l2)%Z.
Proof.
  induction l1 as [| c l1 IH]; intros b.
  - cbn. now rewrite xorb_false_r.
  - cbn [app ean13_sum List.length]. rewrite IH.
    rewrite Nat.odd_succ, <- Nat.negb_odd.
    replace (xorb (negb b) (Nat.odd (List.length l1)))
      with (xorb b (negb (Nat.odd (List.length l1))))
      by (destruct b, (Nat.odd (List.length l1)); reflexivity).
    lia.
Qed.

Lemma ean13_sum_nonneg (digits : list ascii) :
  forall odd_place,
    Forall (fun c => is_digit c = true) digits ->
    (0 <= ean13_sum odd_place digits)%Z.
Proof.
  induction digits as [| c rest IH]; intros b H; cbn [ean13_sum]; [lia | ].
  inversion H as [| ? ? Hc Hrest]; subst.
  apply is_digit_range in Hc. pose proof (IH (negb b) Hrest).
  destruct b; lia.
Qed.

(** X16. Whatever [Math.random] returns (values from 0 up to, not
    including, 1), [generateBarcode] returns thirteen digits that form a
    valid EAN-13 code: the last digit is the check digit of the first
    twelve. *)
Theorem generateBarcode_ean13 (random : nat -> Q) :
  (forall i, 0 <= random i /\ random i < 1) ->
  ean13_valid (generateBarcode random) = true /\
  String.length (generateBarcode random) = 13%nat.
Proof.
  intros H.
  destruct (random_digits_chars random H) as [digits [Hlen [Hd Hs]]].
  unfold generateBarcode. cbv zeta. rewrite Hs.
  rewrite (weighted_sum_digits digits Hlen Hd).
  pose proof (ean13_sum_nonneg digits true Hd) as Hnn.
  set (S := ean13_sum true digits) in *.
  destruct (digit_char (Z.rem (10 - Z.rem S 10) 10)) as [c [Hc [Hv Hstr]]].
  { rewrite (Z.rem_mod_nonneg S 10) by lia.
    pose proof (Z.mod_pos_bound S 10 ltac:(lia)).
    rewrite Z.rem_mod_nonneg by lia.
    pose proof (Z.mod_pos_bound (10 - S mod 10) 10 ltac:(lia)). lia. }
  rewrite Hstr.
  assert (E : (string_of_list_ascii digits ++ String c EmptyString)%string
              = string_of_list_ascii (digits ++ [c])).
  { clear. induction digits as [| d digits IH]; [reflexivity | ].
    cbn. now rewrite IH. }
  rewrite E. split.
  - unfold ean13_valid. cbv zeta.
    rewrite list_ascii_of_string_of_list_ascii, length_app, Hlen.
    cbn [List.length Nat.add Nat.eqb andb].
    rewrite forallb_app. cbn [forallb]. rewrite Hc.
    assert (Hall : forallb is_digit digits = true)
      by (apply forallb_forall; now apply Forall_forall).
    rewrite Hall. cbn [andb].
    rewrite ean13_sum_app, Hlen. cbn [Nat.odd Nat.even xorb negb ean13_sum].
    fold S. rewrite Hv.
    rewrite (Z.rem_mod_nonneg S 10) by lia.
    pose proof (Z.mod_pos_bound S 10 ltac:(lia)).
    rewrite Z.rem_mod_nonneg by lia.
    apply Z.eqb_eq. Z.div_mod_to_equations. lia.
  - rewrite <- (list_ascii_of_string_of_list_ascii (digits ++ [c])) at 1.
    rewrite list_ascii_of_string_of_list_ascii.
    clear - Hlen.
    assert (L : forall l, String.length (string_of_list_ascii l) = List.length l).
    { induction l as [| a l IH]; [reflexivity | cbn; now rewrite IH]. }
    rewrite L, length_app, Hlen. reflexivity.
Qed.

Lemma generateBarcode_ean13_witness :
  ean13_valid
    (generateBarcode (fun i => inject_Z (Z.of_nat (i mod 10)) / 10)) = true /\
  String.length
    (generateBarcode (fun i => inject_Z (Z.of_nat (i mod 10)) / 10)) = 13%nat.
Proof.
  apply (generateBarcode_ean13
           (fun i => inject_Z (Z.of_nat (i mod 10)) / 10)).
  intros i.
  pose proof (Nat.mod_upper_bound i 10 ltac:(lia)) as Hi.
  split.
  - apply Qle_shift_div_l; [reflexivity | ].
    change (0 * 10) with (inject_Z 0). rewrite <- Zle_Qle. lia.
  - apply Qlt_shift_div_r; [reflexivity | ].
    change (1 * 10) with (inject_Z 10). rewrite <- Zlt_Qlt. lia.
Defined.

End BarcodeFacts.

(** ** Settlement of the cart store's actions *)

Module Settlement.
Import Store StoreFacts Selectors.
Local Open Scope string_scope.

Lemma fst_then_ret {A B} (m : Async A) (f : A -> B) (w : World) :
  fst ((a <- m ;; ret (f a)) w)
  = match fst (m w) with
    | Fulfilled a => Fulfilled (f a)
    | Rejected t => Rejected t
    end.
Proof.
  unfold bind, ret. destruct (m w) as [[a | t] w']; reflexivity.
Qed.

(** The store an action leaves, by the outcome of its remote call. *)
Lemma action_settled (op : Op) (w : World) :
  store (exec (action op) w)
  = match fst (remote_snapshot op w) with
    | Fulfilled c => settle_cart c (start_loading (store w))
    | Rejected t =>
        settle_error t (failure_message op) (start_loading (store w))
    end.
Proof.
  destruct op as [ | item | itemId quantity | itemId | | code | ];
    cbn [action remote_snapshot failure_message].
  - unfold fetchCart. rewrite settle_exec, fst_then_ret by auto with blind.
    destruct (fst (cartApi.getCart w)); reflexivity.
  - unfold addItem. rewrite settle_exec, fst_then_ret by auto with blind.
    destruct (fst (cartApi.addItem item w)); reflexivity.
  - destruct (Qle_bool quantity 0) eqn:Hq.
    + rewrite (updateQuantity_removes itemId quantity w Hq).
      unfold removeItem. rewrite settle_exec, fst_then_ret by auto with blind.
      destruct (fst (cartApi.removeItem itemId w)); reflexivity.
    + unfold updateQuantity. rewrite Hq.
      rewrite settle_exec, fst_then_ret by auto with blind.
      destruct (fst (cartApi.updateQuantity itemId quantity w)); reflexivity.
  - unfold removeItem. rewrite settle_exec, fst_then_ret by auto with blind.
    destruct (fst (cartApi.removeItem itemId w)); reflexivity.
  - unfold clearCart. rewrite settle_exec by auto with blind.
    rewrite (fst_then_ret cartApi.clearCart (fun _ => @None Cart)).
    destruct (fst (cartApi.clearCart w)); reflexivity.
  - unfold applyDiscount. rewrite settle_exec, fst_then_ret by auto with blind.
    destruct (fst (cartApi.applyDiscount code w)); reflexivity.
  - unfold removeDiscount. rewrite settle_exec, fst_then_ret by auto with blind.
    destruct (fst (cartApi.removeDiscount w)); reflexivity.
Qed.

(** X17. For every operation of the controller, if the remote call
    succeeds then at settlement the cart is the snapshot the call returned
    (no cart for clearCart), isLoading is false and error is absent, also
    when an error was set before. *)
Theorem successful_operation_replaces_cart (op : Op) (w : World)
    (snapshot : option Cart) :
  fst (remote_snapshot op w) = Fulfilled snapshot ->
  store (exec (action op) w)
  = {| cart := snapshot; isLoading := false; error := None |} /\
  (op = ClearCart -> snapshot = None) /\
  (op <> ClearCart -> exists c, snapshot = Some c).
Proof.
  intros H. split; [ | split].
  - rewrite action_settled, H. reflexivity.
  - intros ->. cbn [remote_snapshot] in H.
    rewrite (fst_then_ret cartApi.clearCart (fun _ => @None Cart)) in H.
    destruct (fst (cartApi.clearCart w)); congruence.
  - intros Hne.
    destruct op as [ | item | itemId quantity | itemId | | code | ];
      cbn [remote_snapshot] in H; try congruence;
      try destruct (Qle_bool quantity 0);
      rewrite fst_then_ret in H;
      match type of H with
      | match fst ?m with _ => _ end = _ =>
          destruct (fst m) as [c | t]; [ | discriminate]
      end;
      exists c; congruence.
Qed.

Lemma successful_operation_replaces_cart_witness :
  store (exec (action (RemoveItem "i1"))
           (with_store {| cart := None; isLoading := false;
                          error := Some "Failed to fetch cart" |} accepting))
  = {| cart := Some cart1; isLoading := false; error := None |}.
Proof.
  apply (successful_operation_replaces_cart (RemoveItem "i1")
           (with_store {| cart := None; isLoading := false;
                          error := Some "Failed to fetch cart" |} accepting)
           (Some cart1)).
  reflexivity.
Defined.

(** X18. Every action settles with isLoading false, and the error it leaves
    is absent exactly when its remote call succeeded. *)
Theorem action_settles (op : Op) (w : World) :
  isLoading (store (exec (action op) w)) = false /\
  (error (store (exec (action op) w)) = None <->
   exists snapshot, fst (remote_snapshot op w) = Fulfilled snapshot).
Proof.
  rewrite action_settled.
  destruct (fst (remote_snapshot op w)) as [c | t]; cbn.
  - split; [reflexivity | ]. split; eauto.
  - split; [reflexivity | ]. split; [discriminate | ].
    intros [c H]. discriminate.
Qed.

Lemma action_settles_witness :
  error (store (exec (action (AddItem item0)) accepting)) = None.
Proof.
  apply (proj2 (action_settles (AddItem item0) accepting)).
  exists (Some cart1). reflexivity.
Defined.

Lemma action_frame_secret (op : Op) (w : World) :
  CSRF_SECRET (exec (action op) w) = CSRF_SECRET (snd (remote_call op w)).
Proof.
  destruct op as [ | item | itemId quantity | itemId | | code | ];
    cbn [action remote_call].
  - unfold fetchCart. rewrite settle_exec, snd_discard by auto with blind.
    reflexivity.
  - unfold addItem. rewrite settle_exec, snd_discard by auto with blind.
    reflexivity.
  - destruct (Qle_bool quantity 0) eqn:Hq.
    + rewrite (updateQuantity_removes itemId quantity w Hq).
      unfold removeItem. rewrite settle_exec, snd_discard by auto with blind.
      reflexivity.
    + unfold updateQuantity. rewrite Hq.
      rewrite settle_exec, snd_discard by auto with blind.
      reflexivity.
  - unfold removeItem. rewrite settle_exec, snd_discard by auto with blind.
    reflexivity.
  - unfold clearCart. rewrite settle_exec by auto with blind.
    reflexivity.
  - unfold applyDiscount. rewrite settle_exec, snd_discard by auto with blind.
    reflexivity.
  - unfold removeDiscount. rewrite settle_exec, snd_discard by auto with blind.
    reflexivity.
Qed.

Lemma generateCSRFToken_outcome (w : World) :
  (exists token, fst (generateCSRFToken w) = Fulfilled token) \/
  truthy_secret (CSRF_SECRET w) = None.
Proof.
  unfold generateCSRFToken.
  destruct (truthy_secret (CSRF_SECRET w)); cbn; eauto.
Qed.

(** What [fetchCart] leaves in the world apart from the store. *)
Lemma getCart_world (w : World) :
  snd (cartApi.getCart w)
  = with_requests
      (requests w ++ [{| url := "/api/shop/cart"; method := GET;
                         contentTypeJson := false; csrfHeader := None;
                         body := None |}]) w.
Proof.
  unfold cartApi.getCart, bind, fetch.
  destruct (server w (requests w) _) as [t | resp]; cbn [snd].
  - reflexivity.
  - apply reads_response_json.
Qed.

(** X19. An action sends at most one request, and it sends none exactly
    when it is a mutating operation whose anti-forgery token cannot be
    generated. *)
Theorem action_sends_one_request (op : Op) (w : World) :
  exists rs,
    requests (exec (action op) w) = (requests w ++ rs)%list /\
    (List.length rs <= 1)%nat /\
    (rs = [] <->
     mutating op = true /\ truthy_secret (CSRF_SECRET w) = None).
Proof.
  destruct (action_frame op w) as [Hreq _]. rewrite Hreq.
  destruct (mutating op) eqn:Hm.
  - destruct (generateCSRFToken_outcome w) as [[token Ht] | Hnone].
    + destruct (mutating_call_world op w token Hm Ht) as [r [_ Hw]].
      rewrite Hw. exists [r]. cbn. split; [reflexivity | ].
      split; [lia | ]. split; [discriminate | ].
      intros [_ Hnone].
      destruct (generateCSRFToken_fulfilled w token Ht) as [Hs _]. congruence.
    + rewrite (mutating_call_missing op w Hm Hnone). exists []. cbn.
      rewrite app_nil_r. repeat split; try lia; assumption.
  - destruct op; try discriminate. cbn [remote_call].
    rewrite snd_discard, getCart_world. eexists [_]. cbn.
    split; [reflexivity | ]. split; [lia | ].
    split; [discriminate | intros [H _]; discriminate].
Qed.

(** X20. [fetchCart] needs no anti-forgery secret: whatever the
    configuration it sends exactly one GET of /api/shop/cart without a
    token and draws no salt. *)
Theorem fetchCart_needs_no_token (w : World) :
  requests (exec fetchCart w)
  = (requests w ++ [{| url := "/api/shop/cart"; method := GET;
                       contentTypeJson := false; csrfHeader := None;
                       body := None |}])%list /\
  salts (exec fetchCart w) = salts w.
Proof.
  destruct (action_frame FetchCart w) as [Hreq Hsalt].
  cbn [action remote_call] in *.
  rewrite Hreq, Hsalt, snd_discard, getCart_world. split; reflexivity.
Qed.

(** X21. Two mutating operations run one after the other each generate a
    token of their own: each sends one request, the second request carries
    the token [generateCSRFToken] returns when the second operation runs,
    and two tokens have been generated in all. *)
Theorem consecutive_operations_generate_tokens (op1 op2 : Op) (w : World)
    (token : Token) :
  mutating op1 = true -> mutating op2 = true ->
  fst (generateCSRFToken w) = Fulfilled token ->
  exists r1 r2 token2,
    requests (exec (action op2) (exec (action op1) w))
    = (requests w ++ [r1; r2])%list /\
    csrfHeader r1 = Some token /\
    fst (generateCSRFToken (exec (action op1) w)) = Fulfilled token2 /\
    csrfHeader r2 = Some token2 /\
    salts (exec (action op2) (exec (action op1) w)) = S (S (salts w)).
Proof.
  intros Hm1 Hm2 Ht.
  destruct (generateCSRFToken_fulfilled w token Ht) as [Hs Htok].
  destruct (mutating_call_world op1 w token Hm1 Ht) as [r1 [Hr1 Hw1]].
  destruct (action_frame op1 w) as [Hreq1 Hsalt1].
  pose proof (action_frame_secret op1 w) as Hsec1.
  rewrite Hw1 in Hreq1, Hsalt1, Hsec1. cbn in Hreq1, Hsalt1, Hsec1.
  set (w1 := exec (action op1) w) in *.
  assert (Ht2 : fst (generateCSRFToken w1)
                = Fulfilled {| token_salt := salts w1;
                               token_secret := token_secret token |}).
  { unfold generateCSRFToken. rewrite Hsec1, Hs. reflexivity. }
  destruct (mutating_call_world op2 w1 _ Hm2 Ht2) as [r2 [Hr2 Hw2]].
  destruct (action_frame op2 w1) as [Hreq2 Hsalt2].
  rewrite Hw2 in Hreq2, Hsalt2. cbn in Hreq2, Hsalt2.
  exists r1, r2, {| token_salt := salts w1; token_secret := token_secret token |}.
  split; [rewrite Hreq2, Hreq1, <- app_assoc; reflexivity | ].
  split; [exact Hr1 | ]. split; [exact Ht2 | ]. split; [exact Hr2 | ].
  rewrite Hsalt2, Hsalt1. reflexivity.
Qed.

Lemma consecutive_operations_generate_tokens_witness :
  exists r1 r2 token2,
    requests (exec (action ClearCart) (exec (action (AddItem item0)) accepting))
    = [r1; r2] /\
    csrfHeader r1 = Some {| token_salt := 0; token_secret := "s3cret" |} /\
    fst (generateCSRFToken (exec (action (AddItem item0)) accepting))
    = Fulfilled token2 /\
    csrfHeader r2 = Some token2 /\
    salts (exec (action ClearCart) (exec (action (AddItem item0)) accepting))
    = 2%nat.
Proof.
  apply (consecutive_operations_generate_tokens (AddItem item0) ClearCart
           accepting {| token_salt := 0; token_secret := "s3cret" |});
    reflexivity.
Defined.

(** X22. After a successful [clearCart] the selectors show an empty cart: no
    cart, no items, a total of 0 and an item count of 0; after a failed
    operation they show what they showed before it. *)
Theorem selectors_after_settlement (op : Op) (w : World) :
  ((exists snapshot, fst (remote_snapshot ClearCart w) = Fulfilled snapshot) ->
   let state := store (exec clearCart w) in
   useCart state = None /\ useCartItems state = [] /\
   useCartTotal state = 0 /\ useCartItemCount state = 0) /\
  (forall t, fst (remote_snapshot op w) = Rejected t ->
   let state := store (exec (action op) w) in
   useCart state = useCart (store w) /\
   useCartItems state = useCartItems (store w) /\
   useCartTotal state = useCartTotal (store w) /\
   useCartItemCount state = useCartItemCount (store w)).
Proof.
  split.
  - intros [snapshot H]. cbv zeta.
    change clearCart with (action ClearCart).
    rewrite action_settled, H.
    cbn [remote_snapshot] in H.
    rewrite (fst_then_ret cartApi.clearCart (fun _ => @None Cart)) in H.
    destruct (fst (cartApi.clearCart w)); [ | discriminate].
    injection H as <-. repeat split.
  - intros t H. cbv zeta. rewrite action_settled, H. repeat split.
Qed.

Lemma selectors_after_settlement_witness :
  useCartItems (store (exec clearCart refusing)) = useCartItems (store refusing) /\
  useCartItemCount (store (exec clearCart accepting)) = 0.
Proof.
  split.
  - apply (proj2 (selectors_after_settlement ClearCart refusing)
             (ErrorObj "Failed to clear cart")).
    reflexivity.
  - apply (proj1 (selectors_after_settlement ClearCart accepting)).
    exists None. reflexivity.
Defined.

(** X23. [clearCart] does not read the body of the response: once the
    token is generated, any response that is ok empties the cart, even one
    whose body cannot be parsed, whereas [removeItem] then keeps the cart
    and reports the parse error. *)
Theorem clearCart_ignores_body (w : World) (token : Token) (resp : Response)
    (itemId : string) (t : Thrown) :
  fst (generateCSRFToken w) = Fulfilled token ->
  (forall r, server w (requests w) r = FetchResolves resp) ->
  ok resp = true -> json resp = JsonThrows t ->
  store (exec clearCart w)
  = {| cart := None; isLoading := false; error := None |} /\
  store (exec (removeItem itemId) w)
  = {| cart := cart (store w); isLoading := false;
       error := Some (message_or t "Failed to remove item from cart") |}.
Proof.
  intros Ht Hsrv Hok Hjson. split.
  - unfold clearCart. rewrite settle_exec by auto with blind.
    unfold cartApi.clearCart.
    erewrite guarded_call_accepted; [ | exact Ht | apply Hsrv | exact Hok].
    reflexivity.
  - unfold removeItem. rewrite settle_exec by auto with blind.
    unfold cartApi.removeItem.
    erewrite guarded_call_accepted; [ | exact Ht | apply Hsrv | exact Hok].
    unfold response_json. rewrite Hjson. reflexivity.
Qed.

Lemma clearCart_ignores_body_witness :
  store (exec clearCart StoreExamples.unparsable)
  = {| cart := None; isLoading := false; error := None |} /\
  store (exec (removeItem "i1") StoreExamples.unparsable)
  = {| cart := Some cart1; isLoading := false;
       error := Some "Unexpected end of JSON input" |}.
Proof.
  apply (clearCart_ignores_body StoreExamples.unparsable
           {| token_salt := 0; token_secret := "s3cret" |}
           {| ok := true;
              json := JsonThrows (ErrorObj "Unexpected end of JSON input") |}
           "i1" (ErrorObj "Unexpected end of JSON input"));
    try reflexivity.
Defined.

End Settlement.

(** ** Product validation *)

Module ProductValidationFacts.
Import JsString ProductValidation.

Lemma push_if_empty (condition : bool) (message : string) (errors : list string) :
  List.length (push_if condition message errors) = 0%nat <->
  condition = false /\ List.length errors = 0%nat.
Proof.
  unfold push_if. destruct condition.
  - rewrite length_app. cbn. split; [lia | intros [H _]; discriminate].
  - tauto.
Qed.

Lemma missing_false (s : option jsstring) :
  missing s = false <-> exists n, s = Some n /\ trim n <> [].
Proof.
  destruct s as [[| u n] | ]; cbn [missing].
  - split; [discriminate | intros [n [[= <-] H]]; now destruct H].
  - rewrite Nat.eqb_neq. split.
    + intros H. exists (u :: n). split; [reflexivity | ].
      intros E. apply H. now rewrite E.
    + intros [n' [[= <-] H]] E. apply H. now apply length_zero_iff_nil.
  - split; [discriminate | intros [n [H _]]; discriminate].
Qed.

Lemma longer_than_false (k : nat) (s : option jsstring) :
  longer_than k s = false <->
  forall n, s = Some n -> (List.length n <= k)%nat.
Proof.
  destruct s as [[| u n] | ]; cbn [longer_than].
  - split; [intros _ n [= <-]; cbn; lia | reflexivity].
  - rewrite Nat.ltb_ge. split; [intros H n' [= <-]; exact H | intros H; now apply H].
  - split; [discriminate | reflexivity].
Qed.

Lemma negative_false (x : option Q) :
  negative x = false <-> forall q, x = Some q -> 0 <= q.
Proof.
  destruct x as [q | ]; cbn [negative].
  - split.
    + intros H q' [= <-]. apply Qnot_lt_le. intros Hlt.
      apply Qlt_bool_iff in Hlt. congruence.
    + intros H. specialize (H q eq_refl).
      destruct (Qlt_bool q 0) eqn:E; [ | reflexivity].
      apply Qlt_bool_iff in E. lra.
  - split; [discriminate | reflexivity].
Qed.

(** X24. [validateProductData] accepts exactly the data with a name and a
    description that are not blank, a name of at most 255 code units, a
    price that is a number not below 0 (0 is accepted), no negative
    comparePrice, costPrice, quantity, weight, length, width or height, and
    a SKU of at most 100 code units. *)
Theorem validateProductData_valid_iff (data : ProductData) :
  valid (validateProductData data) = true <->
  (exists n, name data = Some n /\ trim n <> [] /\ (List.length n <= 255)%nat) /\
  (exists d, description data = Some d /\ trim d <> []) /\
  (exists p, price data = PriceNumber p /\ 0 <= p) /\
  (forall q, comparePrice data = Some q -> 0 <= q) /\
  (forall q, costPrice data = Some q -> 0 <= q) /\
  (forall q, quantity data = Some q -> 0 <= q) /\
  (forall q, weight data = Some q -> 0 <= q) /\
  (forall q, length data = Some q -> 0 <= q) /\
  (forall q, width data = Some q -> 0 <= q) /\
  (forall q, height data = Some q -> 0 <= q) /\
  (forall s, sku data = Some s -> (List.length s <= 100)%nat).
Proof.
  unfold validateProductData. cbv zeta. cbn [valid].
  rewrite Nat.eqb_eq.
  rewrite !push_if_empty.
  rewrite !missing_false, !longer_than_false, !negative_false.
  split.
  - intros (Hsku & Hh & Hw & Hl & Hwt & Hq & Hcost & Hcmp & Hneg & Hlong
            & Hreq & Hdesc & Hname & _).
    destruct Hname as [n [En Hn]].
    repeat split; try assumption.
    + exists n. repeat split; try assumption. now apply Hlong.
    + destruct (price data) as [ | | p]; try discriminate.
      exists p. split; [reflexivity | ].
      apply Qnot_lt_le. intros Hlt. apply Qlt_bool_iff in Hlt. congruence.
  - intros ([n [En [Hn Hlen]]] & Hdesc & [p [Ep Hp]] & Hcmp & Hcost & Hq
            & Hwt & Hl & Hw & Hh & Hsku).
    repeat split; try assumption.
    + rewrite Ep. destruct (Qlt_bool p 0) eqn:E; [ | reflexivity].
      apply Qlt_bool_iff in E. lra.
    + intros n' En'. rewrite En in En'. injection En' as <-. exact Hlen.
    + now rewrite Ep.
    + exists n. now split.
Qed.

Lemma validateProductData_valid_iff_witness :
  valid (validateProductData
           (minimal (of_string "Mug") (of_string "A mug") 0)) = true.
Proof.
  apply (proj2 (validateProductData_valid_iff
                  (minimal (of_string "Mug") (of_string "A mug") 0))).
  cbn [minimal name description price comparePrice costPrice quantity weight
       length width height sku].
  split; [exists (of_string "Mug"); repeat split;
          [vm_compute; discriminate | vm_compute; lia] | ].
  split; [exists (of_string "A mug"); split;
          [reflexivity | vm_compute; discriminate] | ].
  split; [exists 0; split; [reflexivity | lra] | ].
  repeat split; discriminate.
Defined.

End ProductValidationFacts.

(** ** Sanitization and request checks *)

Module SecurityFacts.
Import JsString Security.
Local Open Scope string_scope.

Lemma trimStart_In (s : jsstring) (u : N) :
  In u (trimStart s) -> In u s.
Proof.
  induction s as [| v s IH]; cbn [trimStart]; [tauto | ].
  destruct (is_whitespace v); [intros H; right; now apply IH | tauto].
Qed.

Lemma trimStart_keeps (s : jsstring) (u : N) :
  is_whitespace u = false -> In u s -> In u (trimStart s).
Proof.
  intros Hu. induction s as [| v s IH]; cbn [trimStart]; [tauto | ].
  destruct (is_whitespace v) eqn:E; [ | tauto].
  intros [-> | H]; [congruence | now apply IH].
Qed.

Lemma trim_In (s : jsstring) (u : N) : In u (trim s) -> In u s.
Proof.
  unfold trim, trimEnd. intros H.
  apply in_rev, trimStart_In in H. apply in_rev in H.
  now apply trimStart_In.
Qed.

Lemma trim_keeps (s : jsstring) (u : N) :
  is_whitespace u = false -> In u s -> In u (trim s).
Proof.
  intros Hu H. unfold trim, trimEnd.
  apply in_rev. rewrite rev_involutive.
  apply trimStart_keeps; [exact Hu | ].
  apply in_rev. rewrite rev_involutive. now apply trimStart_keeps.
Qed.

Lemma escape_plain (u : N) : is_special u = false -> escape u = [u].
Proof.
  unfold is_special, escape. cbn [existsb].
  rewrite !orb_false_iff. intros (H1 & H2 & H3 & H4 & H5 & _).
  now rewrite H1, H2, H3, H4, H5.
Qed.

Lemma escape_special (u : N) :
  is_special u = true -> exists rest, escape u = 38%N :: rest /\ rest <> [].
Proof.
  unfold is_special, escape. cbn [existsb].
  destruct (N.eqb u 38); [eexists; split; [reflexivity | discriminate] | ].
  destruct (N.eqb u 60); [eexists; split; [reflexivity | discriminate] | ].
  destruct (N.eqb u 62); [eexists; split; [reflexivity | discriminate] | ].
  destruct (N.eqb u 34); [eexists; split; [reflexivity | discriminate] | ].
  destruct (N.eqb u 39); [eexists; split; [reflexivity | discriminate] | ].
  discriminate.
Qed.

(** The characters an escaped character is written with. *)
Lemma escape_chars (u v : N) :
  In v (escape u) ->
  (is_special u = false /\ v = u) \/
  In v (of_string "&amp;lt;gt;quot;#x27;").
Proof.
  destruct (is_special u) eqn:E.
  - intros H. right. revert H. unfold is_special, escape in *. cbn [existsb] in E.
    destruct (N.eqb u 38); [cbn; intuition | ].
    destruct (N.eqb u 60); [cbn; intuition | ].
    destruct (N.eqb u 62); [cbn; intuition | ].
    destruct (N.eqb u 34); [cbn; intuition | ].
    destruct (N.eqb u 39); [cbn; intuition | ].
    discriminate.
  - rewrite (escape_plain u E). cbn. intros [<- | []]. now left.
Qed.

(** X25. The string [sanitizeInput] returns contains none of the
    characters less-than, greater-than, double quote and single quote. *)
Theorem sanitizeInput_no_markup (input : jsstring) (u : N) :
  In u (sanitizeInput_string input) ->
  u <> 60%N /\ u <> 62%N /\ u <> 34%N /\ u <> 39%N.
Proof.
  unfold sanitizeInput_string. intros H.
  apply trim_In, in_flat_map in H. destruct H as [x [_ H]].
  apply escape_chars in H. destruct H as [[Hx ->] | H].
  - unfold is_special in Hx. cbn [existsb] in Hx.
    rewrite !orb_false_iff, !N.eqb_neq in Hx. tauto.
  - cbn in H. repeat (destruct H as [<- | H]; [repeat split; discriminate | ]).
    destruct H.
Qed.

Lemma sanitizeInput_no_markup_witness :
  98%N <> 60%N /\ 98%N <> 62%N /\ 98%N <> 34%N /\ 98%N <> 39%N.
Proof.
  apply (sanitizeInput_no_markup (of_string "<b>") 98).
  vm_compute. repeat first [left; reflexivity | right].
Defined.

Lemma flat_map_escape_plain (input : jsstring) :
  (forall u, In u input -> is_special u = false) ->
  flat_map escape input = input.
Proof.
  induction input as [| u input IH]; intros H; [reflexivity | ].
  cbn [flat_map]. rewrite escape_plain by (apply H; now left).
  cbn. rewrite IH; [reflexivity | ]. intros v Hv. apply H. now right.
Qed.

(** X26. A string without any of the five escaped characters is only
    trimmed by [sanitizeInput]: nothing else in it is changed. *)
Theorem sanitizeInput_plain (input : jsstring) :
  (forall u, In u input -> is_special u = false) ->
  sanitizeInput_string input = trim input.
Proof.
  intros H. unfold sanitizeInput_string. now rewrite flat_map_escape_plain.
Qed.

Lemma sanitizeInput_plain_witness :
  sanitizeInput_string (of_string "  blue mug ") = trim (of_string "  blue mug ").
Proof.
  apply (sanitizeInput_plain (of_string "  blue mug ")).
  intros u Hu. vm_compute in Hu.
  repeat (destruct Hu as [<- | Hu]; [reflexivity | ]). destruct Hu.
Defined.

(** A string that does not start with white space. *)
Lemma trimStart_fixed (s : jsstring) :
  trimStart s = s <->
  match s with [] => True | u :: _ => is_whitespace u = false end.
Proof.
  destruct s as [| u s]; cbn [trimStart]; [tauto | ].
  destruct (is_whitespace u) eqn:E; [ | tauto].
  split; [ | discriminate].
  intros H. exfalso.
  assert (L : forall t, (List.length (trimStart t) <= List.length t)%nat).
  { induction t as [| v t IH]; cbn [trimStart]; [lia | ].
    destruct (is_whitespace v); cbn; lia. }
  specialize (L s). rewrite H in L. cbn in L. lia.
Qed.

Lemma trimStart_idem (s : jsstring) : trimStart (trimStart s) = trimStart s.
Proof.
  induction s as [| u s IH]; [reflexivity | ].
  cbn [trimStart]. destruct (is_whitespace u) eqn:E; [exact IH | ].
  cbn [trimStart]. now rewrite E.
Qed.

(** [trimStart] drops a prefix. *)
Lemma trimStart_suffix (s : jsstring) :
  exists dropped, s = (dropped ++ trimStart s)%list.
Proof.
  induction s as [| u s [d IH]]; [now exists [] | ].
  cbn [trimStart]. destruct (is_whitespace u).
  - exists (u :: d). cbn. now rewrite <- IH.
  - now exists [].
Qed.

Lemma trim_starts_clean (s : jsstring) : trimStart (trim s) = trim s.
Proof.
  unfold trim, trimEnd.
  set (t := trimStart s).
  assert (Ht : trimStart t = t) by apply trimStart_idem.
  destruct (trimStart_suffix (rev t)) as [d Hd].
  assert (E : t = (rev (trimStart (rev t)) ++ rev d)%list).
  { rewrite <- rev_app_distr, <- Hd. now rewrite rev_involutive. }
  apply trimStart_fixed. apply trimStart_fixed in Ht.
  destruct (rev (trimStart (rev t))) as [| u r]; [exact I | ].
  rewrite E in Ht. exact Ht.
Qed.

Lemma trim_ends_clean (s : jsstring) :
  trimStart (rev (trim s)) = rev (trim s).
Proof.
  unfold trim, trimEnd. rewrite rev_involutive. apply trimStart_idem.
Qed.

Lemma trim_fixed (s : jsstring) :
  trimStart s = s -> trimStart (rev s) = rev s -> trim s = s.
Proof.
  intros H1 H2. unfold trim, trimEnd. rewrite H1, H2. apply rev_involutive.
Qed.

Lemma escape_first_clean (u : N) :
  is_whitespace u = false ->
  exists v rest, escape u = v :: rest /\ is_whitespace v = false.
Proof.
  intros Hu. destruct (is_special u) eqn:E.
  - destruct (escape_special u E) as [rest [Hr _]].
    exists 38%N, rest. split; [exact Hr | reflexivity].
  - rewrite (escape_plain u E). now exists u, [].
Qed.

Lemma escape_last_clean (u : N) :
  is_whitespace u = false ->
  exists v rest, rev (escape u) = v :: rest /\ is_whitespace v = false.
Proof.
  intros Hu. destruct (is_special u) eqn:E.
  - unfold is_special, escape in *. cbn [existsb] in E.
    destruct (N.eqb u 38); [do 2 eexists; split; reflexivity | ].
    destruct (N.eqb u 60); [do 2 eexists; split; reflexivity | ].
    destruct (N.eqb u 62); [do 2 eexists; split; reflexivity | ].
    destruct (N.eqb u 34); [do 2 eexists; split; reflexivity | ].
    destruct (N.eqb u 39); [do 2 eexists; split; reflexivity | ].
    discriminate.
  - rewrite (escape_plain u E). now exists u, [].
Qed.

Lemma rev_flat_map {A B} (f : A -> list B) (l : list A) :
  rev (flat_map f l) = flat_map (fun x => rev (f x)) (rev l).
Proof.
  induction l as [| x l IH]; [reflexivity | ].
  cbn [flat_map rev]. rewrite rev_app_distr, flat_map_app, IH.
  cbn [flat_map]. now rewrite app_nil_r.
Qed.

Lemma flat_map_escape_clean (s : jsstring) :
  trimStart s = s -> trimStart (rev s) = rev s ->
  trim (flat_map escape s) = flat_map escape s.
Proof.
  intros H1 H2. apply trim_fixed.
  - apply trimStart_fixed. apply trimStart_fixed in H1.
    destruct s as [| u s]; [exact I | ].
    cbn [flat_map].
    destruct (escape_first_clean u H1) as [v [rest [E Hv]]].
    rewrite E. exact Hv.
  - apply trimStart_fixed. apply trimStart_fixed in H2.
    rewrite rev_flat_map.
    destruct (rev s) as [| u r]; [exact I | ].
    cbn [flat_map].
    destruct (escape_last_clean u H2) as [v [rest [E Hv]]].
    rewrite E. exact Hv.
Qed.

Lemma flat_map_escape_longer (s : jsstring) :
  (List.length s <= List.length (flat_map escape s))%nat /\
  (In 38%N s -> (List.length s < List.length (flat_map escape s))%nat).
Proof.
  induction s as [| u s [IH1 IH2]]; [cbn; split; [lia | tauto] | ].
  cbn [flat_map]. rewrite length_app. cbn [List.length].
  assert (L : (1 <= List.length (escape u))%nat).
  { destruct (is_special u) eqn:E.
    - destruct (escape_special u E) as [rest [-> _]]. cbn. lia.
    - rewrite (escape_plain u E). cbn. lia. }
  split; [lia | ].
  intros [E | H]; [subst u; cbn; lia | ].
  specialize (IH2 H). lia.
Qed.

(** X27. [sanitizeInput] is not idempotent: for a string with at least one
    of the five escaped characters, sanitizing the result once more gives a
    longer string, because the ampersand of every entity is escaped
    again. *)
Theorem sanitizeInput_twice_longer (input : jsstring) (u : N) :
  In u input -> is_special u = true ->
  (List.length (sanitizeInput_string input)
   < List.length (sanitizeInput_string (sanitizeInput_string input)))%nat /\
  sanitizeInput_string (sanitizeInput_string input)
  <> sanitizeInput_string input.
Proof.
  intros Hin Hsp.
  assert (Hamp : In 38%N (sanitizeInput_string input)).
  { unfold sanitizeInput_string. apply trim_keeps; [reflexivity | ].
    apply in_flat_map. exists u. split; [exact Hin | ].
    destruct (escape_special u Hsp) as [rest [-> _]]. now left. }
  assert (L : (List.length (sanitizeInput_string input)
               < List.length (sanitizeInput_string (sanitizeInput_string input)))%nat).
  { unfold sanitizeInput_string at 2.
    rewrite flat_map_escape_clean.
    - now apply flat_map_escape_longer.
    - apply trim_starts_clean.
    - apply trim_ends_clean. }
  split; [exact L | ].
  intros E. rewrite E in L. lia.
Qed.

Lemma sanitizeInput_twice_longer_witness :
  sanitizeInput_string (sanitizeInput_string (of_string "a<b"))
  <> sanitizeInput_string (of_string "a<b").
Proof.
  apply (proj2 (sanitizeInput_twice_longer (of_string "a<b") 60
                  ltac:(vm_compute; tauto) eq_refl)).
Defined.

(** X28. [withCSRFProtection] lets a request through exactly when a secret
    is configured and either the method is GET, HEAD or OPTIONS, or the
    x-csrf-token header carries a non-empty token that the csrf library
    verifies under that secret.  Without a secret every request, a GET
    too, is refused with status 500; every other refusal has status 403. *)
Theorem withCSRFProtection_passes (verify : string -> string -> option bool)
    (env_secret : option string) (req : NextApiRequest)
    (secret : option string) :
  (withCSRFProtection verify env_secret req secret = None <->
   exists csrfSecret,
     truthy (or_else secret env_secret) = Some csrfSecret /\
     (safe_method (method req) = true \/
      exists token, truthy (x_csrf_token req) = Some token /\
                    verify csrfSecret token = Some true)) /\
  (truthy (or_else secret env_secret) = None ->
   exists refusal,
     withCSRFProtection verify env_secret req secret = Some refusal /\
     status refusal = 500%Z /\ code refusal = "CSRF_SECRET_MISSING") /\
  (forall refusal csrfSecret,
     truthy (or_else secret env_secret) = Some csrfSecret ->
     withCSRFProtection verify env_secret req secret = Some refusal ->
     status refusal = 403%Z).
Proof.
  unfold withCSRFProtection.
  destruct (truthy (or_else secret env_secret)) as [csrfSecret | ].
  - split; [ | split].
    + destruct (safe_method (method req)).
      * split; [intros _; exists csrfSecret; split; [reflexivity | now left]
               | reflexivity].
      * destruct (truthy (x_csrf_token req)) as [token | ].
        -- destruct (verify csrfSecret token) as [[ | ] | ] eqn:V.
           ++ split; [ | reflexivity].
              intros _. exists csrfSecret. split; [reflexivity | ].
              right. exists token. now split.
           ++ split; [discriminate | ].
              intros [s [[= <-] [H | [t [[= <-] H]]]]]; congruence.
           ++ split; [discriminate | ].
              intros [s [[= <-] [H | [t [[= <-] H]]]]]; congruence.
        -- split; [discriminate | ].
           intros [s [_ [H | [t [H _]]]]]; discriminate.
    + discriminate.
    + intros refusal s _.
      destruct (safe_method (method req)); [discriminate | ].
      destruct (truthy (x_csrf_token req)) as [token | ].
      * destruct (verify csrfSecret token) as [[ | ] | ];
          [discriminate | | ]; intros [= <-]; reflexivity.
      * intros [= <-]. reflexivity.
  - split; [ | split].
    + split; [discriminate | intros [s [H _]]; discriminate].
    + intros _. eexists. split; [reflexivity | split; reflexivity].
    + discriminate.
Qed.

Lemma withCSRFProtection_passes_witness :
  withCSRFProtection (fun s t => Some (String.eqb s t)) (Some "s3cret")
    {| method := Some "POST"; x_csrf_token := Some "s3cret";
       x_forwarded_for := None; connection_remoteAddress := None;
       socket_remoteAddress := None |} None
  = None.
Proof.
  apply (proj1 (withCSRFProtection_passes
                  (fun s t => Some (String.eqb s t)) (Some "s3cret")
                  {| method := Some "POST"; x_csrf_token := Some "s3cret";
                     x_forwarded_for := None; connection_remoteAddress := None;
                     socket_remoteAddress := None |} None)).
  exists "s3cret". split; [reflexivity | ].
  right. exists "s3cret". split; reflexivity.
Defined.

(** X29. Outside production [validateIP] accepts every request.  In
    production a request with a non-empty x-forwarded-for header is judged
    by that header alone: the addresses of the connection and of the socket
    do not matter. *)
Theorem validateIP_trusts_header (NODE_ENV : option string)
    (req : NextApiRequest) (header : string) (connection socket : option string) :
  (NODE_ENV <> Some "production" -> validateIP NODE_ENV req = true) /\
  (header <> "" ->
   validateIP (Some "production")
     {| method := method req; x_csrf_token := x_csrf_token req;
        x_forwarded_for := Some (inl header);
        connection_remoteAddress := connection;
        socket_remoteAddress := socket |}
   = negb (blocked header)).
Proof.
  split.
  - intros H. unfold validateIP.
    destruct NODE_ENV as [env | ]; [ | reflexivity].
    destruct (String.eqb env "production") eqn:E.
    + apply String.eqb_eq in E. congruence.
    + assert (G : forall (A : Type) (a b : A),
                 match env with "production" => a | _ => b end = b).
      { intros A a b.
        repeat (destruct env as [| [[|] [|] [|] [|] [|] [|] [|] [|]] env];
                try reflexivity; try discriminate E). }
      apply G.
  - intros H. unfold validateIP.
    cbn [x_forwarded_for connection_remoteAddress socket_remoteAddress].
    destruct header as [| c header]; [congruence | reflexivity].
Qed.

Lemma validateIP_trusts_header_witness :
  validateIP (Some "development")
    {| method := Some "GET"; x_csrf_token := None;
       x_forwarded_for := None; connection_remoteAddress := Some "10.0.0.7";
       socket_remoteAddress := Some "10.0.0.7" |} = true /\
  validateIP (Some "production")
    {| method := Some "GET"; x_csrf_token := None;
       x_forwarded_for := Some (inl "203.0.113.9");
       connection_remoteAddress := Some "10.0.0.7";
       socket_remoteAddress := Some "10.0.0.7" |}
  = negb (blocked "203.0.113.9").
Proof.
  split.
  - apply (proj1 (validateIP_trusts_header (Some "development")
                    {| method := Some "GET"; x_csrf_token := None;
                       x_forwarded_for := None;
                       connection_remoteAddress := Some "10.0.0.7";
                       socket_remoteAddress := Some "10.0.0.7" |}
                    "x" None None)).
    discriminate.
  - apply (proj2 (validateIP_trusts_header (Some "production")
                    {| method := Some "GET"; x_csrf_token := None;
                       x_forwarded_for := None;
                       connection_remoteAddress := None;
                       socket_remoteAddress := None |}
                    "203.0.113.9" (Some "10.0.0.7") (Some "10.0.0.7"))).
    discriminate.
Defined.

End SecurityFacts.
